(** * Frames: layout engine of the photo framing tool

    A shallow embedding of the layout and caption code of the frames tool:
    the padding calculator [getFramePadding], the image placement of the
    preview ([drawCanvas]) and of the export (the [Print] handlers), the caption
    resolver of [caption.ts] ([getCaptionYOffset], [getCaptionYPosition]),
    the caption colours of [drawCaption], the aspect-ratio checks and the
    state change of the upload handler; then the rest of that code: the
    caption strings of [caption.ts] ([getCaptionLines] and its helpers,
    with [toFixed] and [String] of numbers), the colour extraction of the
    auto frame colour, the colour buttons, the control-panel position and
    the download file name.

    JavaScript numbers are modelled as exact rationals [Q]; where the code
    divides by a value that may be zero (the aspect-ratio checks), the
    non-finite results of IEEE division are modelled explicitly. *)

From Stdlib Require Import QArith Qabs Qminmax Qround Lqa ZArith Bool List String Ascii Lia.
From Stdlib Require DecimalFacts DecimalN DecimalPos.
Import ListNotations.
Open Scope Q_scope.

(** ** Enumerations of the user controls *)

(** [RATIOS = ['1:1', '5:7', '9:16']] *)
Inductive Ratio := r1_1 | r5_7 | r9_16.

(** [SPACES = ['S', 'M', 'L']] *)
Inductive Space := SpS | SpM | SpL.

Definition Ratio_eqb (a b : Ratio) : bool :=
  match a, b with
  | r1_1, r1_1 | r5_7, r5_7 | r9_16, r9_16 => true
  | _, _ => false
  end.

Definition Space_eqb (a b : Space) : bool :=
  match a, b with
  | SpS, SpS | SpM, SpM | SpL, SpL => true
  | _, _ => false
  end.

(** ** JavaScript arithmetic helpers *)

(** [Math.round]: rounds half-way values towards +infinity. *)
Definition Math_round (x : Q) : Q := inject_Z (Qfloor (x + (1 # 2))).

(** Strict comparison [x < y] as a boolean. *)
Definition Qltb (x y : Q) : bool := negb (Qle_bool y x).

(** [Math.abs(x - t) < tol] on finite numbers. *)
Definition within (x t tol : Q) : bool := Qltb (Qabs (x - t)) tol.

(** JavaScript truthiness of a number ([0] is falsy). *)
Definition truthy (x : Q) : bool := negb (Qeq_bool x 0).

(** ** Padding calculator ([getFramePadding]) *)

(** [minPadBottomTable] (Ratio, then Spaces). *)
Definition minPadBottomTable (ratio : Ratio) (space : Space) : Q :=
  match ratio, space with
  | r5_7, SpS => 1 # 10
  | _, _ => 17 # 100
  end.

Record Padding := mkPadding {
  padTop : Q; padLeft : Q; padRight : Q; padBottom : Q
}.

(** [space === 'S' ? 0.04 : space === 'M' ? 0.08 : 0.15] *)
Definition basePaddingOf (space : Space) : Q :=
  match space with
  | SpS => 4 # 100
  | SpM => 8 # 100
  | SpL => 15 # 100
  end.

Definition getFramePadding (width height : Q) (ratio : Ratio) (space : Space) : Padding :=
  let basePadding := basePaddingOf space in
  let minPadBottom := minPadBottomTable ratio space in
  let extraBottom := Qmax 0 (minPadBottom - basePadding) in
  let shortSide := Qmin width height in
  let padTop0 := Math_round (shortSide * basePadding) in
  let padLeft := Math_round (shortSide * basePadding) in
  let padRight := Math_round (shortSide * basePadding) in
  let padBottom := Math_round (shortSide * (basePadding + extraBottom)) in
  let padTop :=
    match ratio with
    | r9_16 =>
        let t := padTop0 * (5 # 2) in
        match space with
        | SpS => t * (18 # 10)
        | _ => t
        end
    | _ => padTop0
    end in
  mkPadding padTop padLeft padRight padBottom.

Example getFramePadding_5_7_M :
  Qeq_bool (padBottom (getFramePadding 480 672 r5_7 SpM)) 82 = true.
Proof. reflexivity. Qed.

Example getFramePadding_9_16_S :
  Qeq_bool (padTop (getFramePadding 378 672 r9_16 SpS)) (135 # 2) = true.
Proof. reflexivity. Qed.

(** ** Aspect-ratio checks ([isSupportedAspectRatio], [getImageAspectRatioType])

    [width / height] is an IEEE division: a zero height gives an infinity
    or [NaN].  Every comparison of [Math.abs(NaN - t)] or
    [Math.abs(Infinity - t)] with a tolerance is false. *)

Inductive jsnum := JFin (q : Q) | JInf (positive_sign : bool) | JNaN.

Definition js_div (x y : Q) : jsnum :=
  if Qeq_bool y 0 then
    if Qeq_bool x 0 then JNaN else JInf (Qle_bool 0 x)
  else JFin (x / y).

(** [Math.abs(r - t) < tol] *)
Definition js_within (r : jsnum) (t tol : Q) : bool :=
  match r with
  | JFin q => within q t tol
  | JInf _ => false
  | JNaN => false
  end.

Definition isSupportedAspectRatio (width height : Q) : bool :=
  let aspectRatio := js_div width height in
  let targetRatio34 := 3 # 4 in
  let targetRatio23 := 2 # 3 in
  let targetRatio45 := 4 # 5 in
  let tolerance := 1 # 10 in
  js_within aspectRatio targetRatio34 tolerance
  || js_within aspectRatio targetRatio23 tolerance
  || js_within aspectRatio targetRatio45 tolerance.

Inductive AspectType := A3_4 | A2_3 | A4_5 | Aother.

Definition getImageAspectRatioType (width height : Q) : AspectType :=
  let aspectRatio := js_div width height in
  let tolerance := 5 # 100 in
  if js_within aspectRatio (3 # 4) tolerance then A3_4
  else if js_within aspectRatio (2 # 3) tolerance then A2_3
  else if js_within aspectRatio (4 # 5) tolerance then A4_5
  else Aother.

(** ** Caption offset tables of [caption.ts] (ratio generation)

    Values are fractions of the canvas height; a missing key reads as
    [undefined] and the lookups default it with [?? 0]. *)

(** [CAPTION_Y_OFFSET_RATIO] *)
Definition CAPTION_Y_OFFSET_RATIO (ratio : Ratio) (space : Space) : Q :=
  match ratio, space with
  | r1_1, SpS => 0
  | r1_1, SpM => 0
  | r5_7, SpS => -12 # 1000
  | r5_7, SpM => -12 # 1000
  | _, _ => 0
  end.

(** [CAPTION_Y_OFFSET_RATIO_57IMG] *)
Definition CAPTION_Y_OFFSET_RATIO_57IMG (ratio : Ratio) (space : Space) : Q :=
  match ratio, space with
  | r1_1, SpS => 0
  | r1_1, SpM => -3 # 1000
  | r5_7, SpS => 0
  | r5_7, SpM => -15 # 10000
  | _, _ => 0
  end.

(** [CAPTION_Y_OFFSET_RATIO_23IMG] *)
Definition CAPTION_Y_OFFSET_RATIO_23IMG (ratio : Ratio) (space : Space) : Q :=
  match ratio, space with
  | r1_1, SpS => 0
  | r1_1, SpM => 0
  | r5_7, SpS => 0
  | r5_7, SpM => -3 # 1000
  | _, _ => 0
  end.

(** [CAPTION_Y_OFFSET_RATIO_45IMG] *)
Definition CAPTION_Y_OFFSET_RATIO_45IMG (ratio : Ratio) (space : Space) : Q :=
  match ratio, space with
  | r1_1, SpS => 0
  | r1_1, SpM => 0
  | r5_7, SpS => -45 # 1000
  | r5_7, SpM => -37 # 1000
  | _, _ => 0
  end.

(** [CAPTION_DISTANCE_FROM_IMAGE_BOTTOM_L]: every ratio has the key. *)
Definition CAPTION_DISTANCE_FROM_IMAGE_BOTTOM_L (ratio : Ratio) : Q :=
  match ratio with
  | r1_1 => 2 # 100
  | r5_7 => 2 # 100
  | r9_16 => 2 # 100
  end.

(** [imageWidth && imageHeight && Math.abs(imageWidth / imageHeight - t) < tol] *)
Definition imageNear (imageWidth imageHeight t tol : Q) : bool :=
  truthy imageWidth && truthy imageHeight && within (imageWidth / imageHeight) t tol.

Definition getCaptionYOffset (ratio : Ratio) (space : Space)
    (imageWidth imageHeight canvasH : Q) : Q :=
  match space with
  | SpL => CAPTION_DISTANCE_FROM_IMAGE_BOTTOM_L ratio
  | _ =>
    if imageNear imageWidth imageHeight (5 # 7) (1 # 100) then
      CAPTION_Y_OFFSET_RATIO_57IMG ratio space
    else if imageNear imageWidth imageHeight (2 # 3) (5 # 100) then
      CAPTION_Y_OFFSET_RATIO_23IMG ratio space
    else if imageNear imageWidth imageHeight (4 # 5) (5 # 100) then
      CAPTION_Y_OFFSET_RATIO_45IMG ratio space
    else
      let base := CAPTION_Y_OFFSET_RATIO ratio space in
      let base :=
        if Ratio_eqb ratio r1_1 && Space_eqb space SpS && truthy canvasH
           && Qltb canvasH 480
        then base - (21 # 1000) else base in
      let base :=
        if Ratio_eqb ratio r5_7 && Space_eqb space SpS && truthy canvasH
           && Qltb canvasH 672
        then base - (12 # 1000) else base in
      base
  end.

Definition getCaptionYPosition (ratio : Ratio) (space : Space)
    (canvasHeight padBottom imageDrawTop imageDrawHeight captionHeight
     imageWidth imageHeight : Q) : Q :=
  match ratio with
  | r9_16 =>
      let imageBottom := imageDrawTop + imageDrawHeight in
      let distanceFromBottom := CAPTION_DISTANCE_FROM_IMAGE_BOTTOM_L r9_16 * canvasHeight in
      imageBottom + distanceFromBottom
  | _ =>
    match space with
    | SpL =>
      let imageBottom := imageDrawTop + imageDrawHeight in
      let distanceFromBottom := CAPTION_DISTANCE_FROM_IMAGE_BOTTOM_L ratio * canvasHeight in
      imageBottom + distanceFromBottom
    | _ =>
      let yOffsetRatio :=
        getCaptionYOffset ratio space imageWidth imageHeight canvasHeight in
      let yOffsetPx := yOffsetRatio * canvasHeight in
      canvasHeight - padBottom / 2 - captionHeight / 2 + yOffsetPx
    end
  end.

Example isSupported_3000_4000 : isSupportedAspectRatio 3000 4000 = true.
Proof. reflexivity. Qed.

Example offset_5_7_S_small :
  Qeq_bool (getCaptionYOffset r5_7 SpS 3000 4000 420) (-24 # 1000) = true.
Proof. reflexivity. Qed.

(** ** Image placement

    [Placement] is the rectangle handed to [ctx.drawImage(image, left, top,
    targetW, targetH)]; [top] and [targetH] are also the [imageDrawTop] and
    [imageDrawHeight] given to the caption. *)

Record Placement := mkPlacement {
  left : Q; top : Q; targetW : Q; targetH : Q
}.

(** [Ratio 9:16 ... || (is34Image && ratio === '5:7' && space === 'L') || (is45Image && ...)] *)
Definition centeredVertically (ratio : Ratio) (space : Space) (imageWidth imageHeight : Q) : bool :=
  let is34Image := within (imageWidth / imageHeight) (3 # 4) (5 # 100) in
  let is45Image := within (imageWidth / imageHeight) (4 # 5) (5 # 100) in
  Ratio_eqb ratio r9_16
  || (is34Image && Ratio_eqb ratio r5_7 && Space_eqb space SpL)
  || (is45Image && Ratio_eqb ratio r5_7 && Space_eqb space SpL).

(** The contain-fit step shared by both paths:
    [if (imgAspect > frameAspect) fit to width else fit to height]. *)
Definition containFit (drawW drawH imgAspect : Q) : Q * Q :=
  let frameAspect := drawW / drawH in
  if Qltb frameAspect imgAspect then (drawW, drawW / imgAspect)
  else (drawH * imgAspect, drawH).

(** Image placement of the preview, [drawCanvas] (part_001, 992-1027). *)
Definition previewPlacement (canvasW canvasH : Q) (ratio : Ratio) (space : Space)
    (imageWidth imageHeight : Q) : Placement :=
  let p := getFramePadding canvasW canvasH ratio space in
  let drawW := canvasW - padLeft p - padRight p in
  let drawH := canvasH - padTop p - padBottom p in
  let '(padTopForDraw, drawHForDraw) :=
    if Ratio_eqb ratio r9_16 && Space_eqb space SpL then (0, canvasH)
    else (padTop p, drawH) in
  let imgAspect := imageWidth / imageHeight in
  let '(tW, tH) := containFit drawW drawHForDraw imgAspect in
  let l := padLeft p + (drawW - tW) / 2 in
  let t :=
    if centeredVertically ratio space imageWidth imageHeight
    then padTopForDraw + (drawHForDraw - tH) / 2
    else padTopForDraw in
  mkPlacement l t tW tH.

(** Image placement of the export by the Print handler of the mobile layout
    (part_001, 1465-1491) and by that of the fixed desktop panel
    (part_001, 2149-2175). *)
Definition exportPlacement (outputW outputH : Q) (ratio : Ratio) (space : Space)
    (imageWidth imageHeight : Q) : Placement :=
  let p := getFramePadding outputW outputH ratio space in
  let drawWOut := outputW - padLeft p - padRight p in
  let drawHOut := outputH - padTop p - padBottom p in
  let imgAspect := imageWidth / imageHeight in
  let '(tW, tH) := containFit drawWOut drawHOut imgAspect in
  let l := padLeft p + (drawWOut - tW) / 2 in
  let t :=
    if centeredVertically ratio space imageWidth imageHeight
    then padTop p + (drawHOut - tH) / 2
    else padTop p in
  mkPlacement l t tW tH.

(** Image placement of the export by the Print handler of the draggable
    desktop panel (part_001, 1851-1871):
    [const top = ratio === '9:16' ? padTopOut + (drawHOut - targetH) / 2 : padTopOut]. *)
Definition exportPlacementDesktop (outputW outputH : Q) (ratio : Ratio) (space : Space)
    (imageWidth imageHeight : Q) : Placement :=
  let p := getFramePadding outputW outputH ratio space in
  let drawWOut := outputW - padLeft p - padRight p in
  let drawHOut := outputH - padTop p - padBottom p in
  let imgAspect := imageWidth / imageHeight in
  let '(tW, tH) := containFit drawWOut drawHOut imgAspect in
  let l := padLeft p + (drawWOut - tW) / 2 in
  let t :=
    if Ratio_eqb ratio r9_16
    then padTop p + (drawHOut - tH) / 2
    else padTop p in
  mkPlacement l t tW tH.

(** ** Canvas sizes *)

Definition OUTPUT_LONG_SIDE : Q := 2400.

(** [ratioMap]: [[rw, rh]] *)
Definition ratioMap (ratio : Ratio) : Q * Q :=
  match ratio with
  | r1_1 => (1, 1)
  | r5_7 => (5, 7)
  | r9_16 => (9, 16)
  end.

(** [outputW], [outputH] of the export. *)
Definition exportSize (ratio : Ratio) : Q * Q :=
  let '(rw, rh) := ratioMap ratio in
  let outputLong := OUTPUT_LONG_SIDE in
  let outputW := if Qle_bool rh rw then outputLong else Math_round (outputLong * rw / rh) in
  let outputH := if Qltb rw rh then outputLong else Math_round (outputLong * rh / rw) in
  (outputW, outputH).

(** [canvasW], [canvasH] of the preview when [forceMobile] is false. *)
Definition desktopPreviewSize (ratio : Ratio) : Q * Q :=
  let baseW := 480 in
  let baseH := Math_round (baseW * 7 / 5) in
  match ratio with
  | r1_1 => (baseW, baseW)
  | r9_16 => (Math_round (baseH * 9 / 16), baseH)
  | r5_7 => (baseW, baseH)
  end.

(** [canvasW], [canvasH] of the preview when [forceMobile] is true, for a
    window of width [innerWidth]. *)
Definition mobilePreviewSize (innerWidth : Q) (ratio : Ratio) : Q * Q :=
  let maxMobileW := inject_Z (Qfloor (Qmin (innerWidth * (80 # 100)) 300)) in
  let maxMobileH := 600 in
  let '(rw, rh) := ratioMap ratio in
  let w0 := maxMobileW in
  let h0 := Math_round (w0 * rh / rw) in
  if Qltb maxMobileH h0 then (Math_round (maxMobileH * rw / rh), maxMobileH)
  else (w0, h0).

Example exportSize_5_7 :
  let '(w, h) := exportSize r5_7 in Qeq_bool w 1714 && Qeq_bool h 2400 = true.
Proof. reflexivity. Qed.

Example desktopPreviewSize_9_16 :
  let '(w, h) := desktopPreviewSize r9_16 in Qeq_bool w 378 && Qeq_bool h 672 = true.
Proof. reflexivity. Qed.

(** ** Colours *)

Open Scope string_scope.

Definition SNAP_COLORS_pattern1 : string := "#00AD50".
Definition SNAP_COLORS_pattern2 : string := "#FF9900".

Definition lower_ascii (c : ascii) : ascii :=
  let n := nat_of_ascii c in
  if (65 <=? n)%nat && (n <=? 90)%nat then ascii_of_nat (n + 32) else c.

(** [String.prototype.toLowerCase] on ASCII text. *)
Fixpoint toLowerCase (s : string) : string :=
  match s with
  | EmptyString => EmptyString
  | String c s' => String (lower_ascii c) (toLowerCase s')
  end.

Definition hex_digit (c : ascii) : option Z :=
  let n := Z.of_nat (nat_of_ascii c) in
  if (48 <=? n)%Z && (n <=? 57)%Z then Some (n - 48)%Z
  else if (97 <=? n)%Z && (n <=? 102)%Z then Some (n - 87)%Z
  else if (65 <=? n)%Z && (n <=? 70)%Z then Some (n - 55)%Z
  else None.

Definition dec_digit (c : ascii) : option Z :=
  let n := Z.of_nat (nat_of_ascii c) in
  if (48 <=? n)%Z && (n <=? 57)%Z then Some (n - 48)%Z else None.

(** [parseInt(s, radix)] on the longest prefix of digits; [None] is [NaN]
    (no digit at the start).  Leading blanks, signs and a [0x] prefix are
    not modelled: the strings parsed here are slices of colour literals. *)
Fixpoint parse_digits (digit : ascii -> option Z) (radix acc : Z) (s : string) : Z :=
  match s with
  | EmptyString => acc
  | String c s' =>
      match digit c with
      | Some d => parse_digits digit radix (radix * acc + d) s'
      | None => acc
      end
  end.

Definition parseInt (digit : ascii -> option Z) (radix : Z) (s : string) : option Z :=
  match s with
  | String c _ =>
      match digit c with
      | Some _ => Some (parse_digits digit radix 0 s)
      | None => None
      end
  | EmptyString => None
  end.

(** [color.match(/\d+/g)]: the maximal runs of decimal digits. *)
Fixpoint digit_runs_aux (cur : string) (s : string) : list string :=
  match s with
  | EmptyString => match cur with EmptyString => [] | _ => [cur] end
  | String c s' =>
      match dec_digit c with
      | Some _ => digit_runs_aux (cur ++ String c EmptyString) s'
      | None =>
          match cur with
          | EmptyString => digit_runs_aux EmptyString s'
          | _ => cur :: digit_runs_aux EmptyString s'
          end
      end
  end.

Definition digit_runs (s : string) : list string := digit_runs_aux EmptyString s.

(** [yiq >= 128 ? '#222' : '#fff'], with [NaN >= 128] false. *)
Definition yiqChoice (r g b : option Z) : string :=
  match r, g, b with
  | Some r, Some g, Some b =>
      let yiq := inject_Z (r * 299 + g * 587 + b * 114) / 1000 in
      if Qle_bool 128 yiq then "#222" else "#fff"
  | _, _, _ => "#fff"
  end.

Definition getContrastColor (color : string) : string :=
  if String.eqb color "#fff" || String.eqb color "#ffffff" then "#222"
  else if String.eqb color "#111" || String.eqb color "#000" || String.eqb color "#000000" then "#fff"
  else if String.eqb (toLowerCase color) "#008080" then "#222"
  else if String.eqb (substring 0 1 color) "#" && (String.length color =? 7)%nat then
    let r := parseInt hex_digit 16 (substring 1 2 color) in
    let g := parseInt hex_digit 16 (substring 3 2 color) in
    let b := parseInt hex_digit 16 (substring 5 2 color) in
    yiqChoice r g b
  else if String.prefix "rgb" color then
    match digit_runs color with
    | n0 :: n1 :: n2 :: _ =>
        yiqChoice (parseInt dec_digit 10 n0) (parseInt dec_digit 10 n1) (parseInt dec_digit 10 n2)
    | _ => "#222"
    end
  else "#222".

Example getContrastColor_snap2 : getContrastColor SNAP_COLORS_pattern2 = "#222".
Proof. reflexivity. Qed.

Example getContrastColor_rgb : getContrastColor "rgb(10,20,30)" = "#fff".
Proof. reflexivity. Qed.

Definition RETROBLUE_COLORS_pattern1 : string := "#0037A6".
Definition RETROBLUE_COLORS_pattern2 : string := "#008080".

Definition getFrameColor (color autoColor : string) (snapPattern retrobluePattern : nat) : string :=
  if String.eqb color EmptyString then "#dfdfdf"
  else if String.eqb color "white" then "#fff"
  else if String.eqb color "black" then "#111"
  else if String.eqb color "retroblue" then
    (if (retrobluePattern =? 1)%nat then RETROBLUE_COLORS_pattern1 else RETROBLUE_COLORS_pattern2)
  else if String.eqb color "snap" then
    (if (snapPattern =? 1)%nat then SNAP_COLORS_pattern1 else SNAP_COLORS_pattern2)
  else if String.eqb color "auto" then autoColor
  else "#dfdfdf".

(** ** Caption drawing ([drawCaption], part_001 276-382) *)

(** [str.replace(pat, '')]: removes the first occurrence of [pat]. *)
Fixpoint replace_first (pat s : string) : string :=
  if String.prefix pat s then substring (String.length pat) (String.length s - String.length pat) s
  else match s with
       | EmptyString => EmptyString
       | String c s' => String c (replace_first pat s')
       end.

(** One run of [drawTextWithLetterSpacing]: its text, the [fillStyle] and
    [globalAlpha] in force, and its [y].  Horizontal positions depend on
    [measureText] and are not modelled. *)
Record TextCmd := mkTextCmd {
  cmdText : string; cmdFill : string; cmdAlpha : Q; cmdY : Q
}.

Record CaptionDraw := mkCaptionDraw {
  yStart : Q; baseFontPx1 : Q; baseFontPx2 : Q; lineGapPx : Q; cmds : list TextCmd
}.

(** [CAPTION_STYLE] *)
Definition CAPTION_STYLE_font1 : Q := 23 # 1000.
Definition CAPTION_STYLE_font2 : Q := 19 # 1000.
Definition CAPTION_STYLE_lineGap : Q := 7 # 1000.

Definition ratioFactor (ratio : Ratio) : Q :=
  match ratio with r1_1 => 1 | r5_7 => 5 # 7 | r9_16 => 9 # 16 end.

(** [totalHeight] of the two caption lines for a canvas [width] x [height]. *)
Definition captionBlockHeight (width height : Q) (ratio : Ratio) : Q :=
  let outputShortSide := Qmin OUTPUT_LONG_SIDE (OUTPUT_LONG_SIDE * ratioFactor ratio) in
  let scale := Qmin width height / outputShortSide in
  Math_round (outputShortSide * CAPTION_STYLE_font1 * scale)
  + Math_round (outputShortSide * CAPTION_STYLE_font2 * scale)
  + Math_round (outputShortSide * CAPTION_STYLE_lineGap * scale).

Definition drawCaption (width height padBottom imageDrawTop imageDrawHeight : Q)
    (captionLine0 captionLine1 : string) (frameColor : string)
    (space : Space) (ratio : Ratio) (imageWidth imageHeight : Q) : CaptionDraw :=
  let outputShortSide := Qmin OUTPUT_LONG_SIDE (OUTPUT_LONG_SIDE * ratioFactor ratio) in
  let scale := Qmin width height / outputShortSide in
  let fontPx1 := Math_round (outputShortSide * CAPTION_STYLE_font1 * scale) in
  let fontPx2 := Math_round (outputShortSide * CAPTION_STYLE_font2 * scale) in
  let lineGap := Math_round (outputShortSide * CAPTION_STYLE_lineGap * scale) in
  let totalHeight := fontPx1 + fontPx2 + lineGap in
  let y := getCaptionYPosition ratio space height padBottom imageDrawTop imageDrawHeight
             totalHeight imageWidth imageHeight in
  let isSnapColor := String.eqb frameColor SNAP_COLORS_pattern1 || String.eqb frameColor SNAP_COLORS_pattern2 in
  let isSnapPattern2 := String.eqb frameColor SNAP_COLORS_pattern2 in
  let '(firstLineColor, secondLineColor) :=
    if isSnapPattern2 then ("#E2211C", "#E2211C")
    else if isSnapColor then ("#fff", "#222")
    else let c := getContrastColor frameColor in (c, c) in
  let shotOn := "Shot on " in
  let line1 :=
    if String.eqb captionLine0 EmptyString then []
    else [mkTextCmd shotOn firstLineColor 1 y;
          mkTextCmd (replace_first shotOn captionLine0) firstLineColor 1 y] in
  let line2 :=
    if String.eqb captionLine1 EmptyString then []
    else [mkTextCmd captionLine1 secondLineColor (if isSnapColor then 1 else 7 # 10)
            (y + fontPx1 + lineGap)] in
  mkCaptionDraw y fontPx1 fontPx2 lineGap (app line1 line2).

Example drawCaption_snap2 :
  map cmdFill (cmds (drawCaption 480 672 82 40 500 "Shot on X" "ISO 100" "#FF9900" SpM r5_7 3000 4000))
  = ["#E2211C"; "#E2211C"; "#E2211C"].
Proof. reflexivity. Qed.

(** ** Upload handler and the state it updates *)

(** A decoded [HTMLImageElement]: intrinsic size and identity. *)
Record Img := mkImg { imgWidth : Q; imgHeight : Q; imgId : nat }.

(** The EXIF fields the upload handler reads (part_001, 808-815).
    [FNumber] and [ExposureTime] are [numerator / denominator]; they are
    modelled as rationals, so a NaN from [0 / 0] is not represented. *)
Record ExifData := mkExif {
  exMake : option string; exModel : option string; exISO : option Q;
  exFNumber : option Q; exExposureTime : option Q; exSoftware : option string
}.

(** The browser and helper functions the handlers call.
    [getCenterAverageColor] throws when its sampled square is empty
    ([size = Math.floor(Math.min(w, h) * 0.1) = 0], so [getImageData]
    raises): [None] stands for that exception. *)
Record Collaborators := mkCollaborators {
  getDominantColor : Img -> string;
  getCenterAverageColor : Img -> option string;
  getHighlightColor : Img -> string;
  readExif : Img -> ExifData;
  getCaptionLines : ExifData -> string * string;
  isFilmScanExif : ExifData -> bool
}.

(** The React state of the component that these handlers set. *)
Record AppState := mkState {
  image : option Img;
  color : string;
  autoColor : string;
  autoPattern : nat;
  snapPattern : nat;
  retrobluePattern : nat;
  exifData : option ExifData;
  captionLines : string * string;
  isFilmScannerImage : bool;
  manualCamera : string;
  manualPlace : string;
  showErrorPopup : bool
}.

Definition setShowErrorPopup (b : bool) (s : AppState) : AppState :=
  mkState (image s) (color s) (autoColor s) (autoPattern s) (snapPattern s)
    (retrobluePattern s) (exifData s) (captionLines s) (isFilmScannerImage s)
    (manualCamera s) (manualPlace s) b.

(** [img.onload] of [handleFilesUpload] followed by its [EXIF.getData]
    callback (part_001, 796-830). *)
Definition handleImageLoad (env : Collaborators) (s : AppState) (img : Img) : AppState :=
  if negb (isSupportedAspectRatio (imgWidth img) (imgHeight img)) then
    setShowErrorPopup true s
  else
    let color' := if String.eqb (color s) EmptyString then "white" else color s in
    let exif := readExif env img in
    let isFilm := isFilmScanExif env exif in
    let '(manualCamera', manualPlace', captionLines') :=
      if isFilm then (EmptyString, EmptyString, (EmptyString, EmptyString))
      else (manualCamera s, manualPlace s, getCaptionLines env exif) in
    mkState (Some img) color' (getDominantColor env img) 1 (snapPattern s)
      (retrobluePattern s) (Some exif) captionLines' isFilm
      manualCamera' manualPlace' (showErrorPopup s).

(** The Cancel / Reset button (part_001, 1420-1428). *)
Definition handleCancel (s : AppState) : AppState :=
  mkState None "white" "#e53e3e" 1 1 1 None (EmptyString, EmptyString) false
    (manualCamera s) (manualPlace s) (showErrorPopup s).

(** [handleColorChange] (part_001, 904-948).  When the auto pattern
    moves to 2 and [getCenterAverageColor(image)] throws, the handler stops
    there: the updates queued before the throw ([setColor('auto')],
    [setAutoColor(getDominantColor(image))], [setAutoPattern(2)]) are the
    ones that take effect. *)
Definition handleColorChange (env : Collaborators) (s : AppState) (newColor : string) : AppState :=
  let mk c ac ap sp rp :=
    mkState (image s) c ac ap sp rp (exifData s) (captionLines s)
      (isFilmScannerImage s) (manualCamera s) (manualPlace s) (showErrorPopup s) in
  if String.eqb newColor "retroblue" then
    if String.eqb (color s) "retroblue" then
      mk (color s) (autoColor s) (autoPattern s) (snapPattern s)
         (if (retrobluePattern s =? 1)%nat then 2%nat else 1%nat)
    else mk "retroblue" (autoColor s) (autoPattern s) (snapPattern s) 1%nat
  else if String.eqb newColor "snap" then
    if String.eqb (color s) "snap" then
      mk (color s) (autoColor s) (autoPattern s)
         (if (snapPattern s =? 1)%nat then 2%nat else 1%nat) (retrobluePattern s)
    else mk "snap" (autoColor s) (autoPattern s) 1%nat (retrobluePattern s)
  else if String.eqb newColor "auto" then
    let ac0 := match image s with Some i => getDominantColor env i | None => autoColor s end in
    if String.eqb (color s) "auto" then
      let nextPattern :=
        if (autoPattern s =? 1)%nat then 2%nat
        else if (autoPattern s =? 2)%nat then 3%nat else 1%nat in
      let ac :=
        match image s with
        | Some i =>
            if (nextPattern =? 1)%nat then getDominantColor env i
            else if (nextPattern =? 2)%nat then
              match getCenterAverageColor env i with
              | Some c => c
              | None => ac0
              end
            else getHighlightColor env i
        | None => ac0
        end in
      mk "auto" ac nextPattern (snapPattern s) (retrobluePattern s)
    else mk "auto" ac0 1%nat (snapPattern s) (retrobluePattern s)
  else mk newColor (autoColor s) (autoPattern s) (snapPattern s) (retrobluePattern s).

Inductive Event :=
  | EvImageLoaded (img : Img)
  | EvCancel
  | EvColorChange (newColor : string).

Definition step (env : Collaborators) (s : AppState) (e : Event) : AppState :=
  match e with
  | EvImageLoaded img => handleImageLoad env s img
  | EvCancel => handleCancel s
  | EvColorChange c => handleColorChange env s c
  end.

Definition run (env : Collaborators) (s : AppState) (es : list Event) : AppState :=
  fold_left (step env) es s.

(** Initial state of the component. *)
Definition initialState : AppState :=
  mkState None EmptyString "#e53e3e" 1 1 1 None (EmptyString, EmptyString) false EmptyString EmptyString false.

(** The image [drawCanvas] hands to [ctx.drawImage]: the [image] state. *)
Definition compositorImage (s : AppState) : option Img := image s.

(** A JavaScript number that is an integer. *)
Definition IsInt (q : Q) : Prop := exists z : Z, q == inject_Z z.

(** The image held in the state, if any, passed the upload check. *)
Definition imageAccepted (s : AppState) : Prop :=
  match image s with
  | None => True
  | Some i => isSupportedAspectRatio (imgWidth i) (imgHeight i) = true
  end.

(** A fixed set of collaborators, for concrete runs. *)
Definition sampleCollaborators : Collaborators :=
  mkCollaborators (fun _ => "rgb(1,2,3)") (fun _ => Some "rgb(4,5,6)") (fun _ => "rgb(7,8,9)")
    (fun _ => mkExif None None None None None None) (fun _ => (EmptyString, EmptyString)) (fun _ => false).

(** ** Preview and export renders

    What one render of a loaded image produces: the padding, the image
    rectangle and, when a caption line is non-empty, the caption drawing.
    Both paths take the frame colour from [getFrameColor color autoColor
    snapPattern retrobluePattern]; it is passed here as [frameColor]. *)

Record Frame := mkFrame {
  framePadding : Padding; framePlacement : Placement; frameCaption : option CaptionDraw
}.

(** [captionLines[0] || captionLines[1]] *)
Definition hasCaption (line0 line1 : string) : bool :=
  negb (String.eqb line0 EmptyString) || negb (String.eqb line1 EmptyString).

(** [drawCanvas] with an image, on a [canvasW] x [canvasH] canvas. *)
Definition previewFrame (canvasW canvasH : Q) (ratio : Ratio) (space : Space)
    (imageWidth imageHeight : Q) (line0 line1 frameColor : string) : Frame :=
  let p := getFramePadding canvasW canvasH ratio space in
  let pl := previewPlacement canvasW canvasH ratio space imageWidth imageHeight in
  let caption :=
    if hasCaption line0 line1 then
      Some (drawCaption canvasW canvasH (padBottom p) (top pl) (targetH pl)
              line0 line1 frameColor space ratio imageWidth imageHeight)
    else None in
  mkFrame p pl caption.

(** The Print handler of the rendered layout.  [forceMobile] is
    [window.innerWidth - 480 - 300 < 340] (part_001, 1040-1044): when it
    holds the mobile layout and its handler render (part_001, 1207);
    otherwise the effect at part_001, 1085-1107 sets [isPanelInitialized]
    and the layout renders the draggable panel with its handler
    (part_001, 1620).  [isMobile] is [isMobileDevice()] (a user-agent test)
    and [canvasH] the height of the preview canvas; every handler has
    [const canvasHForCaption = isMobileDevice() ? canvasH : outputH]. *)
Definition exportFrame (forceMobile isMobile : bool) (canvasH : Q) (ratio : Ratio) (space : Space)
    (imageWidth imageHeight : Q) (line0 line1 frameColor : string) : Frame :=
  let '(outputW, outputH) := exportSize ratio in
  let p := getFramePadding outputW outputH ratio space in
  let pl :=
    if forceMobile then exportPlacement outputW outputH ratio space imageWidth imageHeight
    else exportPlacementDesktop outputW outputH ratio space imageWidth imageHeight in
  let canvasHForCaption := if isMobile then canvasH else outputH in
  let caption :=
    if hasCaption line0 line1 then
      Some (drawCaption outputW canvasHForCaption (padBottom p) (top pl) (targetH pl)
              line0 line1 frameColor space ratio imageWidth imageHeight)
    else None in
  mkFrame p pl caption.

(** Two values, each a length divided by its canvas dimension, agree
    within 1/200 (0.5% of the canvas). *)
Definition near (x y : Q) : Prop := Qabs (x - y) <= 1 # 200.

(** Two renders on [W1] x [H1] and [W2] x [H2] canvases are geometrically
    similar: every horizontal length over the width and every vertical
    length over the height are [near]. *)
Definition similarFrames (W1 H1 : Q) (f1 : Frame) (W2 H2 : Q) (f2 : Frame) : Prop :=
  let p1 := framePadding f1 in
  let p2 := framePadding f2 in
  let e1 := framePlacement f1 in
  let e2 := framePlacement f2 in
  near (padTop p1 / H1) (padTop p2 / H2) /\
  near (padBottom p1 / H1) (padBottom p2 / H2) /\
  near (padLeft p1 / W1) (padLeft p2 / W2) /\
  near (padRight p1 / W1) (padRight p2 / W2) /\
  near (left e1 / W1) (left e2 / W2) /\
  near (targetW e1 / W1) (targetW e2 / W2) /\
  near (top e1 / H1) (top e2 / H2) /\
  near (targetH e1 / H1) (targetH e2 / H2) /\
  match frameCaption f1, frameCaption f2 with
  | Some c1, Some c2 => near (yStart c1 / H1) (yStart c2 / H2)
  | None, None => True
  | _, _ => False
  end.

(** ** Number to string

    [String(n)] / [`${n}`] of an integer-valued number below [1e21] is its
    decimal representation; [Z_toString] prints it with the Standard
    Library's decimal conversion [N.to_uint]. *)

Fixpoint uint_to_string (d : Decimal.uint) : string :=
  match d with
  | Decimal.Nil => EmptyString
  | Decimal.D0 d => String "0" (uint_to_string d)
  | Decimal.D1 d => String "1" (uint_to_string d)
  | Decimal.D2 d => String "2" (uint_to_string d)
  | Decimal.D3 d => String "3" (uint_to_string d)
  | Decimal.D4 d => String "4" (uint_to_string d)
  | Decimal.D5 d => String "5" (uint_to_string d)
  | Decimal.D6 d => String "6" (uint_to_string d)
  | Decimal.D7 d => String "7" (uint_to_string d)
  | Decimal.D8 d => String "8" (uint_to_string d)
  | Decimal.D9 d => String "9" (uint_to_string d)
  end.

Definition Z_toString (z : Z) : string :=
  if (z <? 0)%Z then String "-" (uint_to_string (N.to_uint (Z.to_N (- z))))
  else uint_to_string (N.to_uint (Z.to_N z)).

(** [Number::toString]: integers below [1e21] in decimal; the other
    numbers (fractions, exponent notation) are printed by [other], the
    shortest round-trip form of the engine, which is left abstract. *)
Definition Number_toString (other : Q -> string) (q : Q) : string :=
  if Qeq_bool q (inject_Z (Qfloor q)) && Qltb (Qabs q) (inject_Z (10 ^ 21)) then Z_toString (Qfloor q)
  else other q.

(** [x.toFixed(1)] (ECMAScript [Number.prototype.toFixed], f = 1): [n] is
    the integer closest to [10 x], the larger one on a tie, for [x] the
    exact value of the double.  The rational [x] given here is taken as
    that value: a decimal such as 0.15 is not rounded to its double
    (0.1499999999999999944...), so on such inputs this differs from the
    engine ("0.2" here, "0.1" there). *)
Definition toFixed1 (other : Q -> string) (x : Q) : string :=
  let s := if Qltb x 0 then "-" else EmptyString in
  let x' := Qabs x in
  if Qle_bool (inject_Z (10 ^ 21)) x' then s ++ Number_toString other x'
  else
    let n := Qfloor (10 * x' + (1 # 2)) in
    let m := Z_toString n in
    let m := if (String.length m <=? 1)%nat then "0" ++ m else m in
    let k := String.length m in
    s ++ substring 0 (k - 1) m ++ "." ++ substring (k - 1) 1 m.

(** [Math.round] as an integer. *)
Definition Math_roundZ (x : Q) : Z := Qfloor (x + (1 # 2)).

(** ** EXIF caption lines ([caption.ts], 1-98)

    The lookup tables of [camera_aliases.json] ([aliases], [manufacturers],
    [models]) are not part of the sources: they are parameters, each a
    partial map from strings to strings. *)

Record CameraAliases := mkCameraAliases {
  aliases : string -> option string;
  manufacturers : string -> option string;
  models : string -> option string
}.

(** Truthiness of a string: non-empty. *)
Definition str_truthy (s : string) : bool := negb (String.eqb s EmptyString).

(** An optional string property; [undefined] is falsy like [''], so both
    are read as [EmptyString] where only truthiness and text matter. *)
Definition opt_str (o : option string) : string :=
  match o with Some s => s | None => EmptyString end.

(** [a || b] on strings. *)
Definition str_or (a b : string) : string := if str_truthy a then a else b.

(** [s.includes(sub)] *)
Definition includes (s sub : string) : bool :=
  match String.index 0 sub s with Some _ => true | None => false end.

Definition normalizeMake (cam : CameraAliases) (make : option string) : string :=
  let m := opt_str make in
  if negb (str_truthy m) then EmptyString
  else str_or (opt_str (manufacturers cam m)) m.

Definition normalizeModel (cam : CameraAliases) (model : option string) : string :=
  let m := opt_str model in
  if negb (str_truthy m) then EmptyString
  else str_or (opt_str (models cam m)) m.

Definition generateCameraName (cam : CameraAliases) (make model : option string) : string :=
  if negb (str_truthy (opt_str model)) then EmptyString
  else
    let normalizedMake := normalizeMake cam make in
    let normalizedModel := normalizeModel cam model in
    let dedup :=
      if str_truthy normalizedMake && str_truthy normalizedModel then
        let makeLower := toLowerCase normalizedMake in
        let modelLower := toLowerCase normalizedModel in
        if includes modelLower makeLower then Some normalizedModel
        else if includes makeLower modelLower then Some normalizedMake
        else None
      else None in
    match dedup with
    | Some r => r
    | None =>
        if str_truthy normalizedMake && str_truthy normalizedModel then
          normalizedMake ++ " " ++ normalizedModel
        else str_or normalizedModel (str_or normalizedMake EmptyString)
    end.

Definition getCameraName (cam : CameraAliases) (make model : option string) : string :=
  let m := opt_str model in
  if negb (str_truthy m) then EmptyString
  else if str_truthy (opt_str (aliases cam m)) then opt_str (aliases cam m)
  else generateCameraName cam make model.

(** A number property is falsy when absent or zero ([NaN] is not modelled). *)
Definition num_truthy (o : option Q) : bool :=
  match o with Some q => truthy q | None => false end.

Definition getExposureString (other : Q -> string) (exposure : option Q) : string :=
  match exposure with
  | Some e =>
      if negb (truthy e) then EmptyString
      else if Qle_bool 1 e then toFixed1 other e ++ "s"
      else "1/" ++ Number_toString other (inject_Z (Math_roundZ (1 / e))) ++ "s"
  | None => EmptyString
  end.

(** [s.endsWith(suffix)] *)
Definition endsWith (suffix s : string) : bool :=
  let n := String.length s in
  let k := String.length suffix in
  (k <=? n)%nat && String.eqb (substring (n - k) k s) suffix.

Definition getFNumberString (other : Q -> string) (fNumber : option Q) : string :=
  match fNumber with
  | Some f =>
      if negb (truthy f) then EmptyString
      else
        let rounded := toFixed1 other f in
        let displayValue :=
          if endsWith ".0" rounded then substring 0 (String.length rounded - 2) rounded
          else rounded in
        "f" ++ displayValue
  | None => EmptyString
  end.

(** [arr.join(sep)] *)
Fixpoint join (sep : string) (l : list string) : string :=
  match l with
  | [] => EmptyString
  | [x] => x
  | x :: rest => x ++ sep ++ join sep rest
  end.

(** [getCaptionLines] of [caption.ts]. *)
Definition getCaptionLines_impl (cam : CameraAliases) (other : Q -> string) (exif : ExifData)
    : string * string :=
  let camera := getCameraName cam (exMake exif) (exModel exif) in
  let line1 := if str_truthy camera then "Shot on " ++ camera else EmptyString in
  let iso :=
    match exISO exif with
    | Some i => if truthy i then "ISO " ++ Number_toString other i else EmptyString
    | None => EmptyString
    end in
  let fnum := getFNumberString other (exFNumber exif) in
  let exp := getExposureString other (exExposureTime exif) in
  let settings := join " / " (filter str_truthy [iso; fnum; exp]) in
  (line1, settings).

(** The caption of a film-scanner image, typed in by hand
    (part_001, 1196-1205). *)
Definition manualCaptionLines (manualCamera manualPlace : string) : string * string :=
  (if str_truthy manualCamera then "Shot on " ++ manualCamera else EmptyString,
   str_or manualPlace EmptyString).

(** ** Colour extraction for the auto frame colour (part_001, 441-457, 724-788)

    [ctx.getImageData(...).data] is a list of pixels, each its four bytes
    r, g, b, a.  Whether [getContext('2d')] returned a context is [hasCtx]. *)

Definition Pixel : Type := (Z * Z * Z * Z)%type.

(** [`rgb(${r},${g},${b})`] of integers. *)
Definition rgbString (r g b : Z) : string :=
  "rgb(" ++ Z_toString r ++ "," ++ Z_toString g ++ "," ++ Z_toString b ++ ")".

Definition sumChannels (data : list Pixel) : Z * Z * Z :=
  fold_left (fun acc p =>
    let '(r, g, b) := acc in let '(pr, pg, pb, _) := p in (r + pr, g + pg, b + pb)%Z)
    data (0, 0, 0)%Z.

(** [getDominantColor]: the mean colour of the image drawn on 10 x 10. *)
Definition getDominantColor_px (hasCtx : bool) (data : list Pixel) : string :=
  if negb hasCtx then "#e53e3e"
  else
    let '(r, g, b) := sumChannels data in
    rgbString (Math_roundZ (inject_Z r / 100)) (Math_roundZ (inject_Z g / 100))
      (Math_roundZ (inject_Z b / 100)).

(** [getCenterAverageColor(img)] ([percent = 0.1]): [data] is what
    [getImageData(0, 0, size, size)] returns; [None] is the exception that
    [getImageData] throws for a zero [size] ([IndexSizeError]). *)
Definition getCenterAverageColor_px (hasCtx : bool) (imgWidth imgHeight : Q) (data : list Pixel)
    : option string :=
  if negb hasCtx then Some "#e53e3e"
  else
    let size := Qfloor (Qmin imgWidth imgHeight * (1 # 10)) in
    if (size =? 0)%Z then None
    else
      let '(r, g, b) := sumChannels data in
      let pixelCount := inject_Z (size * size) in
      Some (rgbString (Math_roundZ (inject_Z r / pixelCount)) (Math_roundZ (inject_Z g / pixelCount))
              (Math_roundZ (inject_Z b / pixelCount))).

(** [rgbToHsl]; the arguments are divided by 255 first. *)
Definition rgbToHsl (r0 g0 b0 : Q) : Q * Q * Q :=
  let r := r0 / 255 in
  let g := g0 / 255 in
  let b := b0 / 255 in
  let max := Qmax (Qmax r g) b in
  let min := Qmin (Qmin r g) b in
  let l := (max + min) / 2 in
  if negb (Qeq_bool max min) then
    let d := max - min in
    let s := if Qltb (1 # 2) l then d / (2 - max - min) else d / (max + min) in
    let h :=
      if Qeq_bool max r then (g - b) / d + (if Qltb g b then 6 else 0)
      else if Qeq_bool max g then (b - r) / d + 2
      else if Qeq_bool max b then (r - g) / d + 4
      else 0 in
    (h / 6, s, l)
  else (0, 0, l).

(** The pixels kept by [getHighlightColor]: [l > 0.4 && s > 0.4]. *)
Definition highlightPixels (data : list Pixel) : list (Z * Z * Z) :=
  map (fun p => let '(r, g, b, _) := p in (r, g, b))
    (filter (fun p =>
       let '(r, g, b, _) := p in
       let '(_, s, l) := rgbToHsl (inject_Z r) (inject_Z g) (inject_Z b) in
       Qltb (4 # 10) l && Qltb (4 # 10) s) data).

(** [getHighlightColor]: the mean of the bright, saturated pixels of the
    image drawn on 20 x 20. *)
Definition getHighlightColor_px (hasCtx : bool) (data : list Pixel) : string :=
  if negb hasCtx then "#e53e3e"
  else
    let colors := highlightPixels data in
    match colors with
    | [] => "#e53e3e"
    | _ =>
        let n := inject_Z (Z.of_nat (List.length colors)) in
        let sr := fold_left (fun sum c => let '(r, _, _) := c in (sum + r)%Z) colors 0%Z in
        let sg := fold_left (fun sum c => let '(_, g, _) := c in (sum + g)%Z) colors 0%Z in
        let sb := fold_left (fun sum c => let '(_, _, b) := c in (sum + b)%Z) colors 0%Z in
        rgbString (Math_roundZ (inject_Z sr / n)) (Math_roundZ (inject_Z sg / n))
          (Math_roundZ (inject_Z sb / n))
    end.

(** The auto colour that [handleColorChange] leaves for pattern [p]; for
    pattern 2 it is the dominant colour when [getCenterAverageColor]
    throws. *)
Definition autoColorFor (env : Collaborators) (img : Img) (p : nat) : string :=
  if (p =? 1)%nat then getDominantColor env img
  else if (p =? 2)%nat then
    match getCenterAverageColor env img with
    | Some c => c
    | None => getDominantColor env img
    end
  else getHighlightColor env img.

(** ** Control panel position (part_001, 869-884 and 1107-1176) *)

Record PanelPos := mkPanelPos { px : Q; py : Q }.

Definition ENABLE_DRAGGABLE_PANEL : bool := true.

(** [handleMouseMove]; [None] when it returns without setting the position. *)
Definition handleMouseMove (dragging forceMobile : bool) (offset : PanelPos)
    (innerWidth innerHeight clientX clientY : Q) : option PanelPos :=
  if negb dragging || forceMobile || negb ENABLE_DRAGGABLE_PANEL then None
  else
    let newX := clientX - px offset in
    let newY := clientY - py offset in
    let maxX := innerWidth - 280 in
    let maxY := innerHeight - 320 in
    Some (mkPanelPos (Qmax 0 (Qmin newX maxX)) (Qmax 0 (Qmin newY maxY))).

(** [handlePanelResize]; [None] when [needsUpdate] stays false. *)
Definition handlePanelResize (innerWidth innerHeight canvasW : Q) (panelPos : PanelPos)
    : option PanelPos :=
  let panelWidth := 260 in
  let panelHeight := 360 in
  let centerX := innerWidth / 2 in
  let centerY := innerHeight / 2 in
  let gap := 70 in
  let idealX := centerX + canvasW / 2 + gap in
  let idealY := centerY - panelHeight / 2 in
  let maxX := innerWidth - panelWidth - 20 in
  let maxY := innerHeight - panelHeight - 20 in
  let minX := 20 in
  let minY := 20 in
  let x := px panelPos in
  let y := py panelPos in
  if Qltb maxX x || Qltb x minX || Qltb maxY y || Qltb y minY then
    let newX := if Qltb maxX x then maxX else x in
    let newX := if Qltb x minX then minX else newX in
    let newY := if Qltb maxY y then maxY else y in
    let newY := if Qltb y minY then minY else newY in
    Some (mkPanelPos newX newY)
  else if Qle_bool idealX maxX && Qle_bool minY idealY && Qle_bool idealY maxY then
    if Qltb 10 (Qabs (x - idealX)) || Qltb 10 (Qabs (y - idealY)) then
      Some (mkPanelPos idealX idealY)
    else None
  else None.

(** ** Download file name (part_001, 1504-1514) *)

(** [s.padStart(2, '0')] *)
Definition padStart2 (s : string) : string :=
  match String.length s with
  | O => "00"
  | S O => "0" ++ s
  | _ => s
  end.

(** [ratioMap[ratio] || 'x'] *)
Definition ratioShort (ratio : Ratio) : string :=
  match ratio with r1_1 => "sq" | r5_7 => "x" | r9_16 => "ig" end.

(** The file name built from the local date fields of [new Date()]:
    [getFullYear], [getMonth] (0-based), [getDate], [getHours],
    [getMinutes]. *)
Definition downloadFilename (year month date hours minutes : Z) (ratio : Ratio) : string :=
  let yyyy := Z_toString year in
  let mm := padStart2 (Z_toString (month + 1)) in
  let dd := padStart2 (Z_toString date) in
  let hh := padStart2 (Z_toString hours) in
  let min := padStart2 (Z_toString minutes) in
  "frames-" ++ yyyy ++ "-" ++ mm ++ dd ++ "-" ++ hh ++ min ++ "-" ++ ratioShort ratio ++ ".jpeg".

(** ** Predicates on the data above *)

(** Every character is a decimal digit. *)
Fixpoint all_digits (s : string) : bool :=
  match s with
  | EmptyString => true
  | String c s' => match dec_digit c with Some _ => all_digits s' | None => false end
  end.

Definition isByte (z : Z) : bool := (0 <=? z)%Z && (z <=? 255)%Z.

Definition bytePixel (p : Pixel) : bool :=
  let '(r, g, b, a) := p in isByte r && isByte g && isByte b && isByte a.

Definition greyPixel (p : Pixel) : bool :=
  let '(r, g, b, _) := p in (r =? g)%Z && (g =? b)%Z.

(** When the frame colour is [auto] and an image is loaded, the auto colour
    is the one the current pattern selects for that image. *)
Definition autoConsistent (env : Collaborators) (s : AppState) : Prop :=
  match image s with
  | Some i => String.eqb (color s) "auto" = true -> autoColor s = autoColorFor env i (autoPattern s)
  | None => True
  end.

(** ** Auxiliary definitions for the proofs *)

(** The decimal digit [k] as a one-digit [Decimal.uint]. *)
Definition digit_uint (k : Z) : Decimal.uint :=
  match k with
  | 1%Z => Decimal.D1 Decimal.Nil | 2%Z => Decimal.D2 Decimal.Nil | 3%Z => Decimal.D3 Decimal.Nil
  | 4%Z => Decimal.D4 Decimal.Nil | 5%Z => Decimal.D5 Decimal.Nil | 6%Z => Decimal.D6 Decimal.Nil
  | 7%Z => Decimal.D7 Decimal.Nil | 8%Z => Decimal.D8 Decimal.Nil | 9%Z => Decimal.D9 Decimal.Nil
  | _ => Decimal.D0 Decimal.Nil
  end.

(** The three pattern counters of the state hold a valid pattern. *)
Definition patternsInRange (s : AppState) : Prop :=
  (snapPattern s = 1 \/ snapPattern s = 2)%nat /\
  (retrobluePattern s = 1 \/ retrobluePattern s = 2)%nat /\
  (autoPattern s = 1 \/ autoPattern s = 2 \/ autoPattern s = 3)%nat.

(** The toggle of [handleColorChange] between patterns 1 and 2. *)
Definition flipPattern (p : nat) : nat := if (p =? 1)%nat then 2%nat else 1%nat.

(** * Properties *)

(** ** Helper lemmas *)

Lemma Qltb_true (x y : Q) : Qltb x y = true <-> x < y.
Proof.
  unfold Qltb. rewrite negb_true_iff.
  split; intro H.
  - apply Qnot_le_lt. intro H'. apply Qle_bool_iff in H'. congruence.
  - destruct (Qle_bool y x) eqn:E; [|reflexivity].
    apply Qle_bool_iff in E. exfalso. apply (Qlt_not_le _ _ H E).
Qed.

Lemma Qltb_false (x y : Q) : Qltb x y = false <-> y <= x.
Proof.
  unfold Qltb. rewrite negb_false_iff. apply Qle_bool_iff.
Qed.

Lemma within_true (x t tol : Q) : within x t tol = true <-> t - tol < x < t + tol.
Proof.
  unfold within. rewrite Qltb_true, Qabs_Qlt_condition. split; intros [H1 H2]; split; lra.
Qed.

Lemma within_false (x t tol : Q) : within x t tol = false <-> ~ (t - tol < x < t + tol).
Proof.
  rewrite <- within_true. destruct (within x t tol); split; congruence.
Qed.

Lemma Math_round_nonneg (x : Q) : 0 <= x -> 0 <= Math_round x.
Proof.
  intro H. unfold Math_round.
  change 0 with (inject_Z 0). rewrite <- Zle_Qle.
  change 0%Z with (Qfloor 0). apply Qfloor_resp_le. lra.
Qed.

Lemma Math_round_bounds (x : Q) : x - (1 # 2) < Math_round x <= x + (1 # 2).
Proof.
  unfold Math_round. split.
  - pose proof (Qlt_floor (x + (1 # 2))) as H.
    rewrite inject_Z_plus in H. change (inject_Z 1) with 1 in H. lra.
  - pose proof (Qfloor_le (x + (1 # 2))). lra.
Qed.

Lemma Qmin_nonneg (x y : Q) : 0 <= x -> 0 <= y -> 0 <= Qmin x y.
Proof.
  intros Hx Hy. destruct (Q.min_spec x y) as [[_ ->] | [_ ->]]; assumption.
Qed.

Lemma Qmin_cases (x y : Q) : Qmin x y == x \/ Qmin x y == y.
Proof. destruct (Q.min_spec x y) as [[_ ->] | [_ ->]]; [left | right]; reflexivity. Qed.

(** ** Padding calculator *)

(** C2: [getFramePadding] uses basePadding 0.04 / 0.08 / 0.15 for S / M / L,
    minPadBottom 0.10 for (5:7, S) and 0.17 otherwise,
    extraBottom = max(0, minPadBottom - basePadding), padLeft = padRight =
    round(shortSide * basePadding), padBottom = round(shortSide *
    (basePadding + extraBottom)), padTop = round(shortSide * basePadding)
    except for 9:16, where it is multiplied by 2.5 and, for S, by a further
    1.8 (4.5 times the rounded value in all). *)
Theorem getFramePadding_algorithm (width height : Q) (ratio : Ratio) (space : Space) :
  let p := getFramePadding width height ratio space in
  let basePadding := match space with SpS => 4 # 100 | SpM => 8 # 100 | SpL => 15 # 100 end in
  let minPadBottom := match ratio, space with r5_7, SpS => 1 # 10 | _, _ => 17 # 100 end in
  let extraBottom := Qmax 0 (minPadBottom - basePadding) in
  let shortSide := Qmin width height in
  let padTop0 := Math_round (shortSide * basePadding) in
  padLeft p == padTop0 /\ padRight p == padTop0 /\
  padBottom p == Math_round (shortSide * (basePadding + extraBottom)) /\
  padTop p == match ratio, space with
              | r9_16, SpS => padTop0 * (5 # 2) * (18 # 10)
              | r9_16, _ => padTop0 * (5 # 2)
              | _, _ => padTop0
              end /\
  padTop (getFramePadding width height r9_16 SpS)
    == (9 # 2) * Math_round (Qmin width height * (4 # 100)).
Proof.
  destruct ratio, space; cbn -[Math_round Qmin Qmax];
    repeat split; try reflexivity; ring.
Qed.

Ltac round_nonneg_facts :=
  repeat match goal with
  | |- context [Math_round ?x] =>
      lazymatch goal with
      | _ : 0 <= Math_round x |- _ => fail
      | _ => assert (0 <= Math_round x) by (apply Math_round_nonneg; lra)
      end
  end.

(** C6 (counterexample): on the 9:16 preview canvas 378 x 672 with
    Spaces S, [padTop] is 67.5, not an integer. *)
Lemma getFramePadding_padTop_not_integer :
  padTop (getFramePadding 378 672 r9_16 SpS) == (135 # 2) /\
  ~ IsInt (padTop (getFramePadding 378 672 r9_16 SpS)).
Proof.
  assert (E : padTop (getFramePadding 378 672 r9_16 SpS) == (135 # 2)) by reflexivity.
  split; [exact E|].
  intros [z Hz]. rewrite E in Hz.
  unfold Qeq, inject_Z in Hz. cbn [Qnum Qden] in Hz. lia.
Qed.

(** C6 (amended): for non-negative canvas sizes, [padLeft == padRight],
    all four paddings are non-negative, [padLeft], [padRight] and
    [padBottom] are integers, and [padTop] is the non-negative integer
    [k = Math.round(shortSide * basePadding)] times 1 (ratios 1:1, 5:7),
    times 2.5 (9:16 with M or L) or times 4.5 (9:16 with S): an integer
    except for 9:16, where it may be a half-integer. *)
Theorem getFramePadding_postcondition (width height : Q) (ratio : Ratio) (space : Space) :
  0 <= width -> 0 <= height ->
  let p := getFramePadding width height ratio space in
  padLeft p == padRight p /\
  0 <= padTop p /\ 0 <= padLeft p /\ 0 <= padRight p /\ 0 <= padBottom p /\
  IsInt (padLeft p) /\ IsInt (padRight p) /\ IsInt (padBottom p) /\
  exists k : Z, (0 <= k)%Z /\
    inject_Z k == Math_round (Qmin width height * basePaddingOf space) /\
    padTop p == inject_Z k * match ratio, space with
                             | r9_16, SpS => 9 # 2
                             | r9_16, _ => 5 # 2
                             | _, _ => 1
                             end.
Proof.
  intros HW HH.
  pose proof (Qmin_nonneg width height HW HH) as Hs.
  unfold IsInt.
  destruct ratio, space; cbn -[Math_round Qmin];
    set (s := Qmin width height) in *; round_nonneg_facts;
    repeat split; try reflexivity; try lra;
    match goal with
    | |- exists z, Math_round ?x == _ =>
        exists (Qfloor (x + (1 # 2))); reflexivity
    | |- exists k, _ /\ _ /\ ?lhs == _ =>
        match lhs with context [Math_round ?x] =>
        exists (Qfloor (x + (1 # 2))); split; [|split]
        end;
        [ rewrite Zle_Qle; change (inject_Z 0) with 0; assumption
        | unfold Math_round; reflexivity
        | unfold Math_round; ring ]
    end.
Qed.

Lemma getFramePadding_postcondition_witness :
  (0 <= 378 /\ 0 <= 672) /\
  padLeft (getFramePadding 378 672 r9_16 SpS) == padRight (getFramePadding 378 672 r9_16 SpS).
Proof.
  split; [split; discriminate|].
  apply (getFramePadding_postcondition 378 672 r9_16 SpS); discriminate.
Defined.

(** ** Caption position *)

(** C3: whenever the ratio is 9:16 (any Spaces) or Spaces is L (any
    ratio), [getCaptionYPosition] returns imageDrawTop + imageDrawHeight +
    0.02 * canvasHeight; the distance table holds 0.02 for every ratio, so
    S, M and L give the same value for 9:16. *)
Theorem getCaptionYPosition_fixed_distance (ratio : Ratio) (space : Space)
    (canvasHeight padBottom imageDrawTop imageDrawHeight captionHeight imageWidth imageHeight : Q) :
  (ratio = r9_16 \/ space = SpL) ->
  getCaptionYPosition ratio space canvasHeight padBottom imageDrawTop imageDrawHeight
    captionHeight imageWidth imageHeight
  == imageDrawTop + imageDrawHeight + CAPTION_DISTANCE_FROM_IMAGE_BOTTOM_L ratio * canvasHeight /\
  CAPTION_DISTANCE_FROM_IMAGE_BOTTOM_L ratio == 2 # 100 /\
  (forall r : Ratio, CAPTION_DISTANCE_FROM_IMAGE_BOTTOM_L r == 2 # 100) /\
  getCaptionYPosition ratio space canvasHeight padBottom imageDrawTop imageDrawHeight
    captionHeight imageWidth imageHeight
  == imageDrawTop + imageDrawHeight + (2 # 100) * canvasHeight.
Proof.
  intros Hcase.
  assert (Hd : forall r, CAPTION_DISTANCE_FROM_IMAGE_BOTTOM_L r == 2 # 100)
    by (intros []; reflexivity).
  destruct Hcase as [-> | ->]; [destruct space | destruct ratio]; cbn;
    repeat split; try reflexivity; try exact Hd; ring.
Qed.

Lemma getCaptionYPosition_fixed_distance_witness :
  getCaptionYPosition r9_16 SpS 672 64 160 352 30 3000 4000 == 160 + 352 + (2 # 100) * 672.
Proof.
  destruct (getCaptionYPosition_fixed_distance r9_16 SpS 672 64 160 352 30 3000 4000
              (or_introl eq_refl)) as (_ & _ & _ & H).
  exact H.
Defined.

(** C4 (counterexample): on the 300 x 420 phone preview of a 5:7 frame
    with Spaces S and a 1000 x 1400 (exactly 5:7) photo, the 5:7-photo
    table is selected and the small-screen correction (-0.012 for 5:7, S
    below 672) is not subtracted from it. *)
Lemma getCaptionYPosition_correction_skipped_for_57_photo :
  getCaptionYPosition r5_7 SpS 420 51 0 0 15 1000 1400
    == 420 - 51 / 2 - 15 / 2 + CAPTION_Y_OFFSET_RATIO_57IMG r5_7 SpS * 420 /\
  ~ getCaptionYPosition r5_7 SpS 420 51 0 0 15 1000 1400
    == 420 - 51 / 2 - 15 / 2 + (CAPTION_Y_OFFSET_RATIO_57IMG r5_7 SpS - (12 # 1000)) * 420.
Proof.
  split.
  - reflexivity.
  - intro H. vm_compute in H. discriminate H.
Qed.

(** C4 (amended): for Spaces S or M and a ratio other than 9:16,
    [getCaptionYPosition] returns canvasHeight - padBottom / 2 -
    captionHeight / 2 + offset * canvasHeight, where offset is the 5:7
    table entry when both image sides are non-zero and the image ratio is
    within 0.01 of 5/7, else the 2:3 table entry (within 0.05 of 2/3), else
    the 4:5 table entry (within 0.05 of 4/5), else the base table entry
    minus 0.021 when (1:1, S) and 0 < canvasHeight < 480 and minus 0.012
    when (5:7, S) and 0 < canvasHeight < 672: the small-screen correction
    applies to the base table only. *)
Theorem getCaptionYPosition_padding_centered (ratio : Ratio) (space : Space)
    (canvasHeight padBottom imageDrawTop imageDrawHeight captionHeight imageWidth imageHeight : Q) :
  ratio <> r9_16 -> space <> SpL ->
  let offset :=
    if imageNear imageWidth imageHeight (5 # 7) (1 # 100) then
      CAPTION_Y_OFFSET_RATIO_57IMG ratio space
    else if imageNear imageWidth imageHeight (2 # 3) (5 # 100) then
      CAPTION_Y_OFFSET_RATIO_23IMG ratio space
    else if imageNear imageWidth imageHeight (4 # 5) (5 # 100) then
      CAPTION_Y_OFFSET_RATIO_45IMG ratio space
    else
      CAPTION_Y_OFFSET_RATIO ratio space
      - (if Ratio_eqb ratio r1_1 && Space_eqb space SpS
            && truthy canvasHeight && Qltb canvasHeight 480 then 21 # 1000 else 0)
      - (if Ratio_eqb ratio r5_7 && Space_eqb space SpS
            && truthy canvasHeight && Qltb canvasHeight 672 then 12 # 1000 else 0) in
  getCaptionYPosition ratio space canvasHeight padBottom imageDrawTop imageDrawHeight
    captionHeight imageWidth imageHeight
  == canvasHeight - padBottom / 2 - captionHeight / 2 + offset * canvasHeight.
Proof.
  intros Hr Hs offset. subst offset.
  destruct ratio; [| | congruence]; destruct space; try congruence;
    cbn -[imageNear truthy Qltb];
    destruct (imageNear imageWidth imageHeight (5 # 7) (1 # 100));
    try reflexivity;
    destruct (imageNear imageWidth imageHeight (2 # 3) (5 # 100));
    try reflexivity;
    destruct (imageNear imageWidth imageHeight (4 # 5) (5 # 100));
    try reflexivity;
    destruct (truthy canvasHeight); cbn;
    try destruct (Qltb canvasHeight 480); try destruct (Qltb canvasHeight 672);
    cbn; ring.
Qed.

Lemma getCaptionYPosition_padding_centered_witness :
  getCaptionYPosition r5_7 SpM 672 114 0 0 30 3000 4000
  == 672 - 114 / 2 - 30 / 2 + (-12 # 1000) * 672.
Proof.
  pose proof (getCaptionYPosition_padding_centered r5_7 SpM 672 114 0 0 30 3000 4000
                ltac:(discriminate) ltac:(discriminate)) as H.
  cbv zeta in H. rewrite H. vm_compute. reflexivity.
Defined.

(** ** Aspect-ratio classifier *)

Lemma js_div_fin (w h : Q) : ~ h == 0 -> js_div w h = JFin (w / h).
Proof.
  intro Hh. unfold js_div.
  destruct (Qeq_bool h 0) eqn:E; [apply Qeq_bool_iff in E; contradiction | reflexivity].
Qed.

Lemma js_within_fin (q t tol : Q) :
  js_within (JFin q) t tol = true <-> Qabs (q - t) < tol.
Proof. cbn. unfold within. apply Qltb_true. Qed.

(** C7: for a positive height, the upload check accepts exactly the
    images whose ratio is within 0.1 of 3/4, 2/3 or 4/5, and the styling
    classification gives a class other than [other] exactly when the ratio
    is within 0.05 of one of them; 3000 x 4000 is accepted and of class
    3:4, and the square 1000 x 1000 is outside all three acceptance bands
    and rejected. *)
Theorem aspect_ratio_classifier (width height : Q) :
  0 < height ->
  (isSupportedAspectRatio width height = true <->
     exists t, In t [3 # 4; 2 # 3; 4 # 5] /\ Qabs (width / height - t) < 1 # 10) /\
  (getImageAspectRatioType width height <> Aother <->
     exists t, In t [3 # 4; 2 # 3; 4 # 5] /\ Qabs (width / height - t) < 5 # 100) /\
  isSupportedAspectRatio 3000 4000 = true /\
  getImageAspectRatioType 3000 4000 = A3_4 /\
  isSupportedAspectRatio 1000 1000 = false /\
  (forall t, In t [3 # 4; 2 # 3; 4 # 5] -> ~ Qabs (1000 / 1000 - t) < 1 # 10).
Proof.
  intro Hh.
  assert (Hne : ~ height == 0) by (intro E; rewrite E in Hh; apply (Qlt_irrefl 0 Hh)).
  unfold isSupportedAspectRatio, getImageAspectRatioType.
  rewrite (js_div_fin width height Hne). cbn zeta.
  repeat split.
  - intro H. repeat rewrite orb_true_iff in H.
    destruct H as [[H | H] | H]; apply js_within_fin in H; eexists;
      (split; [| exact H]); simpl; tauto.
  - intros (t & Ht & H). simpl in Ht.
    destruct Ht as [<- | [<- | [<- | []]]]; apply js_within_fin in H; rewrite H;
      repeat rewrite orb_true_r; reflexivity.
  - intro H.
    destruct (js_within (JFin (width / height)) (3 # 4) (5 # 100)) eqn:E1;
      [apply js_within_fin in E1; exists (3 # 4); simpl; tauto|].
    destruct (js_within (JFin (width / height)) (2 # 3) (5 # 100)) eqn:E2;
      [apply js_within_fin in E2; exists (2 # 3); simpl; tauto|].
    destruct (js_within (JFin (width / height)) (4 # 5) (5 # 100)) eqn:E3;
      [apply js_within_fin in E3; exists (4 # 5); simpl; tauto|].
    congruence.
  - intros (t & Ht & H) Hother.
    destruct (js_within (JFin (width / height)) (3 # 4) (5 # 100)) eqn:E1; [discriminate|].
    destruct (js_within (JFin (width / height)) (2 # 3) (5 # 100)) eqn:E2; [discriminate|].
    destruct (js_within (JFin (width / height)) (4 # 5) (5 # 100)) eqn:E3; [discriminate|].
    simpl in Ht; destruct Ht as [<- | [<- | [<- | []]]]; apply js_within_fin in H; congruence.
  - intros t Ht. simpl in Ht.
    destruct Ht as [<- | [<- | [<- | []]]]; vm_compute; intro H; discriminate H.
Qed.

Lemma aspect_ratio_classifier_witness :
  0 < 4000 /\ getImageAspectRatioType 3000 4000 = A3_4.
Proof.
  split; [reflexivity|].
  apply (aspect_ratio_classifier 3000 4000 ltac:(reflexivity)).
Defined.

(** ** Caption colours *)

(** C9: with the frame colour of Snap pattern 2 ([#FF9900]),
    [drawCaption] draws every run of both caption lines with the fill
    [#E2211C], for every caption text, ratio and Spaces, although the
    YIQ contrast rule would pick [#222] for that colour; for every frame
    colour that is neither Snap colour, both lines take the contrast colour. *)
Theorem drawCaption_snap_pattern2_red
    (width height padBottom imageDrawTop imageDrawHeight : Q) (line0 line1 : string)
    (space : Space) (ratio : Ratio) (imageWidth imageHeight : Q) :
  let d := drawCaption width height padBottom imageDrawTop imageDrawHeight line0 line1
             SNAP_COLORS_pattern2 space ratio imageWidth imageHeight in
  Forall (fun c => cmdFill c = "#E2211C") (cmds d) /\
  map cmdText (cmds d)
    = app (if String.eqb line0 EmptyString then [] else ["Shot on "; replace_first "Shot on " line0])
          (if String.eqb line1 EmptyString then [] else [line1]) /\
  getContrastColor SNAP_COLORS_pattern2 = "#222" /\
  (forall frameColor : string,
     frameColor <> SNAP_COLORS_pattern1 -> frameColor <> SNAP_COLORS_pattern2 ->
     Forall (fun c => cmdFill c = getContrastColor frameColor)
       (cmds (drawCaption width height padBottom imageDrawTop imageDrawHeight line0 line1
                frameColor space ratio imageWidth imageHeight))).
Proof.
  cbv zeta. repeat split.
  - unfold drawCaption. cbn zeta. cbn [String.eqb SNAP_COLORS_pattern2 SNAP_COLORS_pattern1].
    destruct (String.eqb line0 EmptyString), (String.eqb line1 EmptyString); cbn; repeat constructor.
  - unfold drawCaption. cbn zeta.
    destruct (String.eqb line0 EmptyString), (String.eqb line1 EmptyString); reflexivity.
  - intros frameColor H1 H2.
    apply String.eqb_neq in H1. apply String.eqb_neq in H2.
    unfold drawCaption. cbn zeta. rewrite H1, H2. cbn.
    destruct (String.eqb line0 EmptyString), (String.eqb line1 EmptyString); cbn; repeat constructor.
Qed.

Lemma drawCaption_snap_pattern2_red_witness :
  "#111" <> SNAP_COLORS_pattern1 /\ "#111" <> SNAP_COLORS_pattern2 /\
  Forall (fun c => cmdFill c = "#fff")
    (cmds (drawCaption 480 672 82 40 500 "Shot on X" "ISO 100" "#111" SpM r5_7 3000 4000)).
Proof.
  split; [discriminate|]. split; [discriminate|].
  destruct (drawCaption_snap_pattern2_red 480 672 82 40 500 "Shot on X" "ISO 100" SpM r5_7 3000 4000)
    as (_ & _ & _ & H).
  apply (H "#111"); discriminate.
Defined.

(** ** Upload handling *)

Lemma step_imageAccepted (env : Collaborators) (s : AppState) (e : Event) :
  imageAccepted s -> imageAccepted (step env s e).
Proof.
  intro H. destruct e as [img | | c]; cbn.
  - unfold handleImageLoad.
    destruct (isSupportedAspectRatio (imgWidth img) (imgHeight img)) eqn:E; cbn.
    + destruct (isFilmScanExif env (readExif env img)); exact E.
    + exact H.
  - exact I.
  - unfold handleColorChange, imageAccepted in *.
    repeat (match goal with |- context [if ?b then _ else _] => destruct b end); exact H.
Qed.

Lemma run_imageAccepted (env : Collaborators) (es : list Event) :
  forall s, imageAccepted s -> imageAccepted (run env s es).
Proof.
  induction es as [| e es IH]; intros s H; [exact H|].
  apply IH, step_imageAccepted, H.
Qed.

Lemma compositorImage_accepted (env : Collaborators) (es : list Event) (img : Img) :
  compositorImage (run env initialState es) = Some img ->
  isSupportedAspectRatio (imgWidth img) (imgHeight img) = true.
Proof.
  intro H. pose proof (run_imageAccepted env es initialState I) as Hacc.
  unfold imageAccepted, compositorImage in *. rewrite H in Hacc. exact Hacc.
Qed.

(** C8: when the loaded image fails [isSupportedAspectRatio] (a boolean
    result), the handler only raises the error popup: the image, colours,
    EXIF data, caption lines and every other field keep their values; and
    along any sequence of uploads, cancels and colour changes the image the
    compositor draws always passed the check, so a rejected image never
    reaches it. *)
Theorem handleImageLoad_rejected (env : Collaborators) (s : AppState) (img : Img) :
  isSupportedAspectRatio (imgWidth img) (imgHeight img) = false ->
  let s' := handleImageLoad env s img in
  s' = setShowErrorPopup true s /\
  showErrorPopup s' = true /\
  image s' = image s /\ color s' = color s /\ autoColor s' = autoColor s /\
  autoPattern s' = autoPattern s /\ snapPattern s' = snapPattern s /\
  retrobluePattern s' = retrobluePattern s /\ exifData s' = exifData s /\
  captionLines s' = captionLines s /\ isFilmScannerImage s' = isFilmScannerImage s /\
  manualCamera s' = manualCamera s /\ manualPlace s' = manualPlace s /\
  (forall es img', compositorImage (run env initialState es) = Some img' ->
     isSupportedAspectRatio (imgWidth img') (imgHeight img') = true).
Proof.
  intros Hrej s'. subst s'.
  unfold handleImageLoad. rewrite Hrej. cbn.
  repeat split.
  intros es img'. apply compositorImage_accepted.
Qed.

Lemma handleImageLoad_rejected_witness :
  isSupportedAspectRatio 1000 1000 = false /\
  image (handleImageLoad sampleCollaborators initialState (mkImg 1000 1000 7)) = None.
Proof.
  split; [reflexivity|].
  destruct (handleImageLoad_rejected sampleCollaborators initialState (mkImg 1000 1000 7)
              eq_refl) as (_ & _ & H & _).
  exact H.
Defined.

(** C10: an image with a zero side (ratio 0, an infinity or NaN) fails
    [isSupportedAspectRatio]; hence the image the compositor draws never
    has a zero side. *)
Theorem isSupportedAspectRatio_degenerate (width height : Q) :
  (width == 0 \/ height == 0) ->
  isSupportedAspectRatio width height = false /\
  (forall env es img, compositorImage (run env initialState es) = Some img ->
     ~ imgWidth img == 0 /\ ~ imgHeight img == 0).
Proof.
  assert (Hdeg : forall w h, (w == 0 \/ h == 0) -> isSupportedAspectRatio w h = false).
  { intros w h Hwh. unfold isSupportedAspectRatio. cbn zeta.
    destruct (Qeq_bool h 0) eqn:Eh.
    - unfold js_div. rewrite Eh. destruct (Qeq_bool w 0); reflexivity.
    - assert (Hh : ~ h == 0) by (apply Qeq_bool_neq; exact Eh).
      destruct Hwh as [Hw | Hh0]; [| contradiction].
      rewrite (js_div_fin w h Hh).
      assert (Hq : w / h == 0) by (rewrite Hw; unfold Qdiv; ring).
      cbn [js_within].
      repeat match goal with
      | |- context [within (w / h) ?t ?tol] =>
          let E := fresh "E" in
          destruct (within (w / h) t tol) eqn:E;
          [apply within_true in E; rewrite Hq in E; destruct E; lra|]
      end; reflexivity. }
  intro Hwh. split; [apply Hdeg, Hwh|].
  intros env es img Himg.
  pose proof (compositorImage_accepted env es img Himg) as Hacc.
  split; intro H0; rewrite Hdeg in Hacc; try discriminate; [left | right]; exact H0.
Qed.

Lemma isSupportedAspectRatio_degenerate_witness :
  (0 == 0 \/ 4000 == 0) /\ isSupportedAspectRatio 0 4000 = false.
Proof.
  split; [left; reflexivity|].
  apply (isSupportedAspectRatio_degenerate 0 4000 (or_introl (Qeq_refl 0))).
Defined.

(** ** Image placement *)

Lemma div_mul_cancel (x y : Q) : 0 < y -> x / y * y == x.
Proof. intro Hy. field. intro E. rewrite E in Hy. apply (Qlt_irrefl 0 Hy). Qed.

(** Contain-fit: the rectangle keeps the aspect ratio [a], fits in
    [drawW] x [drawH] and fills one of the two sides. *)
Lemma containFit_spec (drawW drawH a : Q) :
  0 < drawW -> 0 < drawH -> 0 < a ->
  forall tW tH, containFit drawW drawH a = (tW, tH) ->
  0 < tW /\ tW <= drawW /\ 0 < tH /\ tH <= drawH /\ tW == a * tH /\
  (tW == drawW \/ tH == drawH).
Proof.
  intros HW HH Ha tW tH Hfit. unfold containFit in Hfit.
  pose proof (div_mul_cancel drawW drawH HH) as Hr.
  pose proof (div_mul_cancel drawW a Ha) as Ha'.
  set (r := drawW / drawH) in *. set (q := drawW / a) in *.
  destruct (Qltb r a) eqn:E; injection Hfit as <- <-.
  - apply Qltb_true in E.
    assert (0 < q) by nra.
    repeat split; try lra; try nra.
  - apply Qltb_false in E.
    repeat split; try lra; try nra.
Qed.

(** The vertical-centring test of both paths, read through the styling
    classification: centred iff 9:16, or 5:7 with L and class 3:4 or 4:5. *)
Lemma centeredVertically_class (ratio : Ratio) (space : Space) (iw ih : Q) :
  0 < ih ->
  centeredVertically ratio space iw ih
  = Ratio_eqb ratio r9_16
    || (Ratio_eqb ratio r5_7 && Space_eqb space SpL
        && match getImageAspectRatioType iw ih with A3_4 | A4_5 => true | _ => false end).
Proof.
  intro Hh.
  assert (Hne : ~ ih == 0) by (intro E; rewrite E in Hh; apply (Qlt_irrefl 0 Hh)).
  unfold centeredVertically, getImageAspectRatioType. cbv zeta.
  rewrite (js_div_fin iw ih Hne). cbn [js_within].
  destruct ratio, space; cbn [Ratio_eqb Space_eqb orb andb]; try reflexivity;
    repeat rewrite andb_true_r; repeat rewrite andb_false_r;
    destruct (within (iw / ih) (3 # 4) (5 # 100)); try reflexivity; cbn;
    destruct (within (iw / ih) (2 # 3) (5 # 100)) eqn:E23;
    destruct (within (iw / ih) (4 # 5) (5 # 100)) eqn:E45; try reflexivity.
  apply within_true in E23. apply within_true in E45. lra.
Qed.

Lemma Qdiv_2 (x : Q) : x / 2 == x * (1 # 2).
Proof. reflexivity. Qed.

Ltac half_lra :=
  repeat rewrite Qdiv_2 in *;
  repeat match goal with
  | d := _ |- _ => subst d
  end;
  lra.

(** On the 378 x 672 preview of a 9:16 frame with Spaces L, a 2000 x 3000
    photo (accepted, ratio 2:3) is placed with its top at 138, above
    [padTop] = 142.5: the preview fits the image into the full canvas
    height for (9:16, L), not into the padded interior. *)
Lemma previewPlacement_9_16_L_above_padTop :
  isSupportedAspectRatio 2000 3000 = true /\
  top (previewPlacement 378 672 r9_16 SpL 2000 3000) == 138 /\
  padTop (getFramePadding 378 672 r9_16 SpL) == (285 # 2) /\
  top (previewPlacement 378 672 r9_16 SpL 2000 3000) < padTop (getFramePadding 378 672 r9_16 SpL).
Proof. vm_compute. repeat split; try reflexivity; discriminate. Qed.

(** C5 (counterexample): the Print handler of the draggable desktop panel
    top-aligns a 3000 x 4000 photo (class 3:4) in a 5:7 frame with Spaces
    L: its top is [padTop] = 257 of the 1714 x 2400 export, where the
    preview and the other two Print handlers centre it in the padded
    interior (top 383 in the export, 107 in the 480 x 672 preview). *)
Lemma export_desktop_5_7_L_top_aligned :
  isSupportedAspectRatio 3000 4000 = true /\
  getImageAspectRatioType 3000 4000 = A3_4 /\
  centeredVertically r5_7 SpL 3000 4000 = true /\
  exportSize r5_7 = (1714, 2400) /\
  padTop (getFramePadding 1714 2400 r5_7 SpL) == 257 /\
  top (exportPlacementDesktop 1714 2400 r5_7 SpL 3000 4000) == 257 /\
  top (framePlacement (exportFrame false false 672 r5_7 SpL 3000 4000 "Shot on X" "ISO 100" "#dfdfdf"))
    == 257 /\
  top (exportPlacement 1714 2400 r5_7 SpL 3000 4000) == 383 /\
  top (framePlacement (exportFrame true false 420 r5_7 SpL 3000 4000 "Shot on X" "ISO 100" "#dfdfdf"))
    == 383 /\
  top (previewPlacement 480 672 r5_7 SpL 3000 4000) == 107.
Proof. vm_compute. repeat split; reflexivity. Qed.

(** C5: for a positive canvas, a photo with positive sides and a non-empty
    padded interior ([drawW], [drawH] > 0), the image rectangle of the
    preview and of the three Print handlers keeps the photo's aspect
    ratio, is contain-fit (fills the width or the height of its fitting
    box), is centred horizontally between [padLeft] and
    [width - padRight].  The Print handlers of the mobile layout and of the
    fixed panel ([exportPlacement]) place it at [padTop], or centred in the
    padded interior exactly when the ratio is 9:16 or (5:7, L) with class
    3:4 or 4:5, within the padded interior.  The Print handler of the
    draggable desktop panel ([exportPlacementDesktop]) centres it exactly
    when the ratio is 9:16, and top-aligns it otherwise, (5:7, L) included.
    The preview places it as the first two handlers do, except for
    (9:16, L), where the fitting box is the full canvas height and the
    image is centred vertically in the whole canvas. *)
Theorem image_placement_invariant (width height : Q) (ratio : Ratio) (space : Space)
    (imageWidth imageHeight : Q) :
  0 < height -> 0 < imageWidth -> 0 < imageHeight ->
  let p := getFramePadding width height ratio space in
  let drawW := width - padLeft p - padRight p in
  let drawH := height - padTop p - padBottom p in
  0 < drawW -> 0 < drawH ->
  let a := imageWidth / imageHeight in
  let centered :=
    Ratio_eqb ratio r9_16
    || (Ratio_eqb ratio r5_7 && Space_eqb space SpL
        && match getImageAspectRatioType imageWidth imageHeight with
           | A3_4 | A4_5 => true | _ => false end) in
  let e := exportPlacement width height ratio space imageWidth imageHeight in
  let d := exportPlacementDesktop width height ratio space imageWidth imageHeight in
  let v := previewPlacement width height ratio space imageWidth imageHeight in
  (* export, mobile layout and fixed panel *)
  (targetW e == a * targetH e /\ 0 < targetW e /\ 0 < targetH e /\
   (targetW e == drawW \/ targetH e == drawH) /\
   left e == padLeft p + (drawW - targetW e) / 2 /\
   padLeft p <= left e /\ left e + targetW e <= width - padRight p /\
   top e == (if centered then padTop p + (drawH - targetH e) / 2 else padTop p) /\
   padTop p <= top e /\ top e + targetH e <= height - padBottom p) /\
  (* export, draggable desktop panel *)
  (targetW d == a * targetH d /\ 0 < targetW d /\ 0 < targetH d /\
   (targetW d == drawW \/ targetH d == drawH) /\
   left d == padLeft p + (drawW - targetW d) / 2 /\
   padLeft p <= left d /\ left d + targetW d <= width - padRight p /\
   top d == (if Ratio_eqb ratio r9_16 then padTop p + (drawH - targetH d) / 2 else padTop p) /\
   padTop p <= top d /\ top d + targetH d <= height - padBottom p) /\
  (* preview *)
  (targetW v == a * targetH v /\ 0 < targetW v /\ 0 < targetH v /\
   left v == padLeft p + (drawW - targetW v) / 2 /\
   padLeft p <= left v /\ left v + targetW v <= width - padRight p /\
   if Ratio_eqb ratio r9_16 && Space_eqb space SpL then
     (targetW v == drawW \/ targetH v == height) /\
     top v == (height - targetH v) / 2 /\ 0 <= top v /\ top v + targetH v <= height
   else
     (targetW v == drawW \/ targetH v == drawH) /\
     top v == (if centered then padTop p + (drawH - targetH v) / 2 else padTop p) /\
     padTop p <= top v /\ top v + targetH v <= height - padBottom p).
Proof.
  intros HH Hiw Hih p drawW drawH HdW HdH a centered e d v.
  assert (Ha : 0 < a) by (apply Qlt_shift_div_l; [exact Hih | lra]).
  assert (Hc : centeredVertically ratio space imageWidth imageHeight = centered)
    by (apply centeredVertically_class; exact Hih).
  split; [|split].
  - subst e. unfold exportPlacement. fold p drawW drawH a. rewrite Hc.
    destruct (containFit drawW drawH a) as [tW tH] eqn:Ef.
    destruct (containFit_spec drawW drawH a HdW HdH Ha tW tH Ef)
      as (H1 & H2 & H3 & H4 & H5 & H6).
    cbn [targetW targetH left top].
    destruct centered; repeat split; try exact H6; half_lra.
  - subst d. unfold exportPlacementDesktop. fold p drawW drawH a.
    destruct (containFit drawW drawH a) as [tW tH] eqn:Ef.
    destruct (containFit_spec drawW drawH a HdW HdH Ha tW tH Ef)
      as (H1 & H2 & H3 & H4 & H5 & H6).
    cbn [targetW targetH left top].
    destruct (Ratio_eqb ratio r9_16); repeat split; try exact H6; half_lra.
  - subst v. unfold previewPlacement. fold p drawW drawH a. rewrite Hc.
    destruct (Ratio_eqb ratio r9_16 && Space_eqb space SpL) eqn:Esp.
    + assert (Hcen : centered = true).
      { apply andb_true_iff in Esp. destruct Esp as [Er _].
        unfold centered. rewrite Er. reflexivity. }
      rewrite Hcen.
      destruct (containFit drawW height a) as [tW tH] eqn:Ef.
      destruct (containFit_spec drawW height a HdW HH Ha tW tH Ef)
        as (H1 & H2 & H3 & H4 & H5 & H6).
      cbn [targetW targetH left top].
      repeat split; try exact H6; half_lra.
    + destruct (containFit drawW drawH a) as [tW tH] eqn:Ef.
      destruct (containFit_spec drawW drawH a HdW HdH Ha tW tH Ef)
        as (H1 & H2 & H3 & H4 & H5 & H6).
      cbn [targetW targetH left top].
      destruct centered; repeat split; try exact H6; half_lra.
Qed.

Lemma image_placement_invariant_witness :
  0 < 672 /\ 0 < 3000 /\ 0 < 4000 /\
  top (exportPlacement 480 672 r5_7 SpL 3000 4000)
  + targetH (exportPlacement 480 672 r5_7 SpL 3000 4000)
  <= 672 - padBottom (getFramePadding 480 672 r5_7 SpL).
Proof.
  split; [reflexivity|]. split; [reflexivity|]. split; [reflexivity|].
  destruct (image_placement_invariant 480 672 r5_7 SpL 3000 4000
              ltac:(reflexivity) ltac:(reflexivity) ltac:(reflexivity)
              ltac:(vm_compute; reflexivity) ltac:(vm_compute; reflexivity))
    as [(_ & _ & _ & _ & _ & _ & _ & _ & _ & Hb) _].
  exact Hb.
Defined.

(** ** Preview and export *)

(** The export's image rectangle is the preview's, except for (9:16, L). *)
Lemma export_eq_preview (W H : Q) (ratio : Ratio) (space : Space) (iw ih : Q) :
  (Ratio_eqb ratio r9_16 && Space_eqb space SpL) = false ->
  exportPlacement W H ratio space iw ih = previewPlacement W H ratio space iw ih.
Proof. intro E. unfold exportPlacement, previewPlacement. rewrite E. reflexivity. Qed.

(** The draggable desktop panel's export places the image as the other
    Print handlers when their centring rule reduces to ratio 9:16. *)
Lemma exportDesktop_eq_export (W H : Q) (ratio : Ratio) (space : Space) (iw ih : Q) :
  centeredVertically ratio space iw ih = Ratio_eqb ratio r9_16 ->
  exportPlacementDesktop W H ratio space iw ih = exportPlacement W H ratio space iw ih.
Proof. intro E. unfold exportPlacementDesktop, exportPlacement. rewrite E. reflexivity. Qed.

Lemma desktopPreviewSize_eq (ratio : Ratio) :
  desktopPreviewSize ratio
  = match ratio with r1_1 => (480, 480) | r5_7 => (480, 672) | r9_16 => (378, 672) end.
Proof. destruct ratio; vm_compute; reflexivity. Qed.

Lemma exportSize_eq (ratio : Ratio) :
  exportSize ratio
  = match ratio with r1_1 => (2400, 2400) | r5_7 => (1714, 2400) | r9_16 => (1350, 2400) end.
Proof. destruct ratio; vm_compute; reflexivity. Qed.

Lemma exportPlacement_char (W H : Q) (ratio : Ratio) (space : Space) (iw ih : Q) :
  0 < iw -> 0 < ih ->
  let p := getFramePadding W H ratio space in
  let drawW := W - padLeft p - padRight p in
  let drawH := H - padTop p - padBottom p in
  0 < drawW -> 0 < drawH ->
  let e := exportPlacement W H ratio space iw ih in
  targetH e <= drawH /\ targetH e <= drawW * (ih / iw) /\
  (targetH e == drawH \/ targetH e == drawW * (ih / iw)) /\
  targetW e <= drawW /\ targetW e <= drawH * (iw / ih) /\
  (targetW e == drawW \/ targetW e == drawH * (iw / ih)) /\
  left e == padLeft p + (drawW - targetW e) / 2 /\
  top e == (if centeredVertically ratio space iw ih
            then padTop p + (drawH - targetH e) / 2 else padTop p).
Proof.
  intros Hw Hh p drawW drawH HdW HdH e.
  assert (Ha : 0 < iw / ih) by (apply Qlt_shift_div_l; lra).
  assert (Hb : 0 < ih / iw) by (apply Qlt_shift_div_l; lra).
  assert (Hab : iw / ih * (ih / iw) == 1).
  { field. split; intro E; [rewrite E in Hw | rewrite E in Hh]; apply (Qlt_irrefl 0); assumption. }
  subst e. unfold exportPlacement. fold p drawW drawH.
  destruct (containFit drawW drawH (iw / ih)) as [tW tH] eqn:Ef.
  destruct (containFit_spec drawW drawH (iw / ih) HdW HdH Ha tW tH Ef)
    as (H1 & H2 & H3 & H4 & H5 & H6).
  cbn [left top targetW targetH].
  assert (HtH : tH == tW * (ih / iw)).
  { rewrite H5, (Qmult_comm (iw / ih) tH), <- Qmult_assoc, Hab. ring. }
  repeat split.
  - exact H4.
  - rewrite HtH. apply Qmult_le_compat_r; [exact H2 | lra].
  - destruct H6 as [E | E]; [right; rewrite HtH, E; reflexivity | left; exact E].
  - exact H2.
  - rewrite H5, Qmult_comm. apply Qmult_le_compat_r; [exact H4 | lra].
  - destruct H6 as [E | E]; [left; exact E | right; rewrite H5, E; ring].
Qed.

Lemma yStart_drawCaption (width height padBottom imageDrawTop imageDrawHeight : Q)
    (line0 line1 frameColor : string) (space : Space) (ratio : Ratio) (iw ih : Q) :
  yStart (drawCaption width height padBottom imageDrawTop imageDrawHeight
            line0 line1 frameColor space ratio iw ih)
  = getCaptionYPosition ratio space height padBottom imageDrawTop imageDrawHeight
      (captionBlockHeight width height ratio) iw ih.
Proof.
  unfold drawCaption, captionBlockHeight. cbv zeta.
  destruct (String.eqb frameColor SNAP_COLORS_pattern2), (String.eqb frameColor SNAP_COLORS_pattern1);
    reflexivity.
Qed.

Lemma Qdiv_pos_lit (x : Q) (n d : positive) : x / (Zpos n # d) == x * (Zpos d # n).
Proof. reflexivity. Qed.

Lemma supported_bounds (iw ih : Q) :
  0 < ih -> isSupportedAspectRatio iw ih = true -> 17 # 30 < iw / ih < 9 # 10.
Proof.
  intros Hh Hs.
  assert (Hne : ~ ih == 0) by (intro E; rewrite E in Hh; apply (Qlt_irrefl 0 Hh)).
  unfold isSupportedAspectRatio in Hs. rewrite (js_div_fin iw ih Hne) in Hs.
  cbn [js_within] in Hs.
  repeat rewrite orb_true_iff in Hs. repeat rewrite within_true in Hs. lra.
Qed.

Ltac eval_closed :=
  repeat match goal with
  | |- context [getFramePadding ?w ?h ?r ?s] =>
      let v := eval vm_compute in (getFramePadding w h r s) in
      change (getFramePadding w h r s) with v in *
  | H : context [getFramePadding ?w ?h ?r ?s] |- _ =>
      let v := eval vm_compute in (getFramePadding w h r s) in
      change (getFramePadding w h r s) with v in *
  | |- context [captionBlockHeight ?w ?h ?r] =>
      let v := eval vm_compute in (captionBlockHeight w h r) in
      change (captionBlockHeight w h r) with v in *
  end;
  cbn [padTop padLeft padRight padBottom] in *.

(** C1 (where it holds): with the draggable desktop panel on a desktop
    (not a mobile device), for a frame ratio and Spaces other than
    (9:16, L) and an accepted photo for which the preview's centring rule
    agrees with the desktop Print handler's ("ratio 9:16"), that is every
    case but (5:7, L) with class 3:4 or 4:5, the export computes the same
    image rectangle as the preview at its own resolution, and the preview
    render on the desktop canvas ([desktopPreviewSize]) and the export
    render at long side 2400 ([exportSize]) are similar: the four paddings,
    the image rectangle and the caption's first baseline [yStart], each
    divided by the canvas width (horizontal lengths) or height (vertical
    lengths), agree within 1/200, whatever the caption lines and the frame
    colour. *)
Theorem preview_export_scale_invariance (ratio : Ratio) (space : Space)
    (imageWidth imageHeight : Q) (line0 line1 frameColor : string) :
  0 < imageWidth -> 0 < imageHeight ->
  isSupportedAspectRatio imageWidth imageHeight = true ->
  (Ratio_eqb ratio r9_16 && Space_eqb space SpL) = false ->
  centeredVertically ratio space imageWidth imageHeight = Ratio_eqb ratio r9_16 ->
  (forall W H, exportPlacementDesktop W H ratio space imageWidth imageHeight
               = previewPlacement W H ratio space imageWidth imageHeight) /\
  let '(pw, ph) := desktopPreviewSize ratio in
  let '(ow, oh) := exportSize ratio in
  similarFrames pw ph (previewFrame pw ph ratio space imageWidth imageHeight line0 line1 frameColor)
                ow oh (exportFrame false false ph ratio space imageWidth imageHeight
                         line0 line1 frameColor).
Proof.
  intros Hw Hh Hs Hsp Hcv. split.
  { intros W H. rewrite (exportDesktop_eq_export W H ratio space imageWidth imageHeight Hcv).
    apply export_eq_preview. exact Hsp. }
  pose proof (supported_bounds imageWidth imageHeight Hh Hs) as Ha.
  assert (Hab : imageWidth / imageHeight * (imageHeight / imageWidth) == 1).
  { field. split; intro E; [rewrite E in Hw | rewrite E in Hh]; apply (Qlt_irrefl 0); assumption. }
  assert (Hb0 : 0 < imageHeight / imageWidth) by (apply Qlt_shift_div_l; lra).
  assert (Hb : 10 # 9 < imageHeight / imageWidth < 30 # 17) by (split; nra).
  clear Hab Hb0 Hs.
  unfold previewFrame, exportFrame, similarFrames.
  rewrite desktopPreviewSize_eq, exportSize_eq.
  destruct ratio, space; try discriminate Hsp; cbv beta iota zeta;
  rewrite <- export_eq_preview by reflexivity;
  rewrite exportDesktop_eq_export by exact Hcv;
  match goal with
  | |- context [exportPlacement ?W1 ?H1 ?r ?s imageWidth imageHeight] =>
    match goal with
    | |- context [exportPlacement ?W2 ?H2 r s imageWidth imageHeight] =>
      tryif constr_eq W1 W2 then fail else
      pose proof (exportPlacement_char W1 H1 r s imageWidth imageHeight Hw Hh
                    ltac:(vm_compute; reflexivity) ltac:(vm_compute; reflexivity))
        as (Hh1 & Hh1' & Dh1 & Hw1 & Hw1' & Dw1 & Hl1 & Ht1);
      pose proof (exportPlacement_char W2 H2 r s imageWidth imageHeight Hw Hh
                    ltac:(vm_compute; reflexivity) ltac:(vm_compute; reflexivity))
        as (Hh2 & Hh2' & Dh2 & Hw2 & Hw2' & Dw2 & Hl2 & Ht2);
      destruct (exportPlacement W1 H1 r s imageWidth imageHeight) as [l1 t1 w1 h1];
      destruct (exportPlacement W2 H2 r s imageWidth imageHeight) as [l2 t2 w2 h2]
    end
  end;
  cbn [left top targetW targetH framePadding framePlacement frameCaption] in *;
  destruct (hasCaption line0 line1);
  try rewrite !yStart_drawCaption;
  unfold getCaptionYPosition, CAPTION_DISTANCE_FROM_IMAGE_BOTTOM_L; cbv beta iota zeta;
  repeat match goal with
  | |- context [getCaptionYOffset ?r ?s ?w ?h ?H1] =>
      match goal with
      | |- context [getCaptionYOffset r s w h ?H2] =>
          tryif constr_eq H1 H2 then fail else
          replace (getCaptionYOffset r s w h H2) with (getCaptionYOffset r s w h H1)
            by reflexivity
      end
  end;
  repeat match goal with
  | |- context [getCaptionYOffset ?r ?s ?w ?h ?H] =>
      generalize (getCaptionYOffset r s w h H); intro off
  end;
  eval_closed;
  clear Hcv;
  destruct (centeredVertically _ _ imageWidth imageHeight);
  set (a := imageWidth / imageHeight) in *; set (b := imageHeight / imageWidth) in *;
  clearbody a b;
  unfold near; repeat rewrite Qdiv_pos_lit in *;
  repeat split; apply Qabs_Qle_condition; split;
  first [ lra | destruct Dh1, Dh2; lra | destruct Dw1, Dw2; lra ].
Qed.

(** C1 (counterexample): renders that are not similar.  On a desktop (not
    a mobile device) with the draggable panel, a 3000 x 4000 photo in a
    5:7 frame with Spaces L has its top at 107 of 672 in the preview
    (0.159 of the height), which centres it, but at 257 of 2400 in the
    export (0.107), whose Print handler top-aligns every ratio but 9:16.
    A 2000 x 3000 photo in a 9:16 frame with Spaces L has its top at 138
    of 672 in the preview (0.205) but at 630.75 of 2400 in the export
    (0.263): the preview centres the image in the full canvas height for
    (9:16, L), the export in the padded interior.  On a mobile device,
    whose preview of a 5:7 frame is 300 x 420, the export draws the
    caption with the preview height 420 as its canvas height, so the
    caption of a 3000 x 4000 photo with Spaces M starts at 258.96 of 2400
    (0.108 of the height, inside the image, which spans 137 to 2057)
    instead of 381.96 of 420 (0.909) in the preview. *)
Lemma preview_export_not_similar :
  isSupportedAspectRatio 3000 4000 = true /\
  top (framePlacement (previewFrame 480 672 r5_7 SpL 3000 4000 "Shot on X" "ISO 100" "#dfdfdf")) == 107 /\
  top (framePlacement (exportFrame false false 672 r5_7 SpL 3000 4000 "Shot on X" "ISO 100" "#dfdfdf"))
    == 257 /\
  ~ similarFrames 480 672 (previewFrame 480 672 r5_7 SpL 3000 4000 "Shot on X" "ISO 100" "#dfdfdf")
                  1714 2400 (exportFrame false false 672 r5_7 SpL 3000 4000 "Shot on X" "ISO 100" "#dfdfdf") /\
  isSupportedAspectRatio 2000 3000 = true /\
  top (framePlacement (previewFrame 378 672 r9_16 SpL 2000 3000 "Shot on X" "ISO 100" "#dfdfdf")) == 138 /\
  top (framePlacement (exportFrame false false 672 r9_16 SpL 2000 3000 "Shot on X" "ISO 100" "#dfdfdf"))
    == 2523 # 4 /\
  ~ similarFrames 378 672 (previewFrame 378 672 r9_16 SpL 2000 3000 "Shot on X" "ISO 100" "#dfdfdf")
                  1350 2400 (exportFrame false false 672 r9_16 SpL 2000 3000 "Shot on X" "ISO 100" "#dfdfdf") /\
  mobilePreviewSize 375 r5_7 = (300, 420) /\
  (exists c, frameCaption (previewFrame 300 420 r5_7 SpM 3000 4000 "Shot on X" "ISO 100" "#dfdfdf")
             = Some c /\ yStart c == 9549 # 25) /\
  (exists c, frameCaption (exportFrame true true 420 r5_7 SpM 3000 4000 "Shot on X" "ISO 100" "#dfdfdf")
             = Some c /\ yStart c == 6474 # 25 /\
             let e := framePlacement (exportFrame true true 420 r5_7 SpM 3000 4000 "Shot on X" "ISO 100" "#dfdfdf") in
             top e < yStart c < top e + targetH e) /\
  ~ similarFrames 300 420 (previewFrame 300 420 r5_7 SpM 3000 4000 "Shot on X" "ISO 100" "#dfdfdf")
                  1714 2400 (exportFrame true true 420 r5_7 SpM 3000 4000 "Shot on X" "ISO 100" "#dfdfdf").
Proof.
  split; [reflexivity|].
  split; [vm_compute; reflexivity|].
  split; [vm_compute; reflexivity|].
  split.
  { unfold similarFrames. intros (_ & _ & _ & _ & _ & _ & Ht & _).
    unfold near in Ht. rewrite <- Qle_bool_iff in Ht. vm_compute in Ht. discriminate Ht. }
  split; [reflexivity|].
  split; [vm_compute; reflexivity|].
  split; [vm_compute; reflexivity|].
  split.
  { unfold similarFrames. intros (_ & _ & _ & _ & _ & _ & Ht & _).
    unfold near in Ht. rewrite <- Qle_bool_iff in Ht. vm_compute in Ht. discriminate Ht. }
  split; [vm_compute; reflexivity|].
  split.
  { eexists. split; [reflexivity | vm_compute; reflexivity]. }
  split.
  { eexists. split; [reflexivity|]. split; [vm_compute; reflexivity|].
    split; vm_compute; reflexivity. }
  unfold similarFrames. intros (_ & _ & _ & _ & _ & _ & _ & _ & Hc).
  vm_compute in Hc. apply Hc. reflexivity.
Qed.

Lemma preview_export_scale_invariance_witness :
  0 < 3000 /\ 0 < 4000 /\ isSupportedAspectRatio 3000 4000 = true /\
  centeredVertically r5_7 SpM 3000 4000 = Ratio_eqb r5_7 r9_16 /\
  similarFrames 480 672 (previewFrame 480 672 r5_7 SpM 3000 4000 "Shot on X" "ISO 100" "#dfdfdf")
                1714 2400 (exportFrame false false 672 r5_7 SpM 3000 4000 "Shot on X" "ISO 100" "#dfdfdf").
Proof.
  split; [reflexivity|]. split; [reflexivity|]. split; [reflexivity|].
  split; [vm_compute; reflexivity|].
  destruct (preview_export_scale_invariance r5_7 SpM 3000 4000 "Shot on X" "ISO 100" "#dfdfdf"
              ltac:(reflexivity) ltac:(reflexivity) ltac:(reflexivity) ltac:(reflexivity)
              ltac:(vm_compute; reflexivity))
    as [_ Hsim].
  rewrite desktopPreviewSize_eq, exportSize_eq in Hsim. exact Hsim.
Defined.

(** * Properties of the caption strings, colour extraction, colour buttons,
    panel and file name *)

(** ** Decimal printing *)

Ltac digit_cases k :=
  let H := fresh in
  assert (H : (k = 0 \/ k = 1 \/ k = 2 \/ k = 3 \/ k = 4 \/ k = 5 \/ k = 6 \/ k = 7 \/ k = 8 \/ k = 9)%Z) by lia;
  repeat (destruct H as [-> | H]); [..| subst].

Lemma rev_app_digit (u : Decimal.uint) (k : Z) :
  Decimal.rev (Decimal.app u (digit_uint k)) = Decimal.app (digit_uint k) (Decimal.rev u).
Proof.
  apply DecimalFacts.to_list_inj.
  repeat rewrite ?DecimalFacts.app_spec, ?DecimalFacts.rev_spec. rewrite List.rev_app_distr.
  unfold digit_uint; destruct k as [|p|p]; try reflexivity;
  repeat (destruct p as [p|p|]; try reflexivity).
Qed.

Lemma of_uint_app_digit (u : Decimal.uint) (k : Z) : (0 <= k < 10)%Z ->
  N.of_uint (Decimal.app u (digit_uint k)) = (10 * N.of_uint u + Z.to_N k)%N.
Proof.
  intros Hk. unfold N.of_uint.
  rewrite !DecimalPos.Unsigned.of_uint_alt, rev_app_digit.
  digit_cases k; cbn [Decimal.app Decimal.rev Decimal.revapp DecimalPos.Unsigned.of_lu digit_uint Z.to_N]; lia.
Qed.

Lemma uint_to_string_app (a b : Decimal.uint) :
  uint_to_string (Decimal.app a b) = uint_to_string a ++ uint_to_string b.
Proof.
  induction a as [|a IH|a IH|a IH|a IH|a IH|a IH|a IH|a IH|a IH|a IH];
    [rewrite DecimalFacts.app_nil_l; reflexivity|..];
  match goal with
  | |- uint_to_string (Decimal.app (?c a) b) = _ =>
      replace (Decimal.app (c a) b) with (c (Decimal.app a b))
        by (apply DecimalFacts.to_list_inj; rewrite DecimalFacts.app_spec; simpl;
            rewrite DecimalFacts.app_spec; reflexivity)
  end; simpl; rewrite IH; reflexivity.
Qed.

Lemma N_to_uint_snoc (n : N) (k : Z) : (1 <= n)%N -> (0 <= k < 10)%Z ->
  N.to_uint (10 * n + Z.to_N k) = Decimal.app (N.to_uint n) (digit_uint k).
Proof.
  intros Hn Hk.
  rewrite <- (DecimalN.Unsigned.of_to n) at 1.
  rewrite <- of_uint_app_digit by exact Hk.
  rewrite DecimalN.Unsigned.to_of.
  assert (Hu : Decimal.unorm (N.to_uint n) = N.to_uint n).
  { rewrite <- DecimalN.Unsigned.to_of, DecimalN.Unsigned.of_to. reflexivity. }
  rewrite DecimalFacts.unorm_app_l, Hu; [reflexivity|].
  destruct (Nat.lt_ge_cases (Decimal.nb_digits (digit_uint k))
              (Decimal.nb_digits (Decimal.unorm (Decimal.app (N.to_uint n) (digit_uint k))))) as [H|H];
    [exact H|].
  exfalso. apply DecimalFacts.unorm_app_zero in H. rewrite Hu in H.
  apply (f_equal N.of_uint) in H. rewrite DecimalN.Unsigned.of_to in H. simpl in H. lia.
Qed.

Lemma Z_toString_digit (k : Z) : (0 <= k < 10)%Z -> Z_toString k = uint_to_string (digit_uint k).
Proof. intros Hk. digit_cases k; reflexivity. Qed.

Lemma Z_toString_snoc (q k : Z) : (1 <= q)%Z -> (0 <= k < 10)%Z ->
  Z_toString (10 * q + k) = Z_toString q ++ Z_toString k.
Proof.
  intros Hq Hk. unfold Z_toString at 1 2.
  replace ((10 * q + k <? 0)%Z) with false by lia.
  replace ((q <? 0)%Z) with false by lia.
  replace (Z.to_N (10 * q + k)) with (10 * Z.to_N q + Z.to_N k)%N by lia.
  rewrite N_to_uint_snoc by lia.
  rewrite uint_to_string_app, Z_toString_digit by exact Hk. reflexivity.
Qed.

Lemma Z_toString_digit_length (k : Z) : (0 <= k < 10)%Z -> String.length (Z_toString k) = 1%nat.
Proof. intros Hk. digit_cases k; reflexivity. Qed.

Lemma all_digits_app (a b : string) : all_digits (a ++ b) = all_digits a && all_digits b.
Proof.
  induction a as [|c a IH]; [reflexivity|].
  simpl. destruct (dec_digit c); [exact IH|reflexivity].
Qed.

(** Strong induction on the non-negative integers, in the form used below. *)
Lemma Z_nonneg_strong_ind (P : Z -> Prop) :
  (forall z, (0 <= z)%Z -> (forall y, (0 <= y < z)%Z -> P y) -> P z) ->
  forall z, (0 <= z)%Z -> P z.
Proof.
  intros Hind.
  assert (H : forall n z, (0 <= z)%Z -> (Z.to_nat z <= n)%nat -> P z).
  { induction n as [|n IH]; intros z Hz Hn.
    - apply Hind; [exact Hz|]. intros y Hy. lia.
    - apply Hind; [exact Hz|]. intros y Hy. apply IH; lia. }
  intros z Hz. exact (H (Z.to_nat z) z Hz (le_n _)).
Qed.

Lemma Z_toString_decomp (z : Z) : (10 <= z)%Z ->
  Z_toString z = Z_toString (z / 10) ++ Z_toString (z mod 10).
Proof.
  intros Hz. rewrite (Z.div_mod z 10) at 1 by lia.
  apply Z_toString_snoc.
  - apply Z.div_le_lower_bound; lia.
  - apply Z.mod_pos_bound; lia.
Qed.

Lemma Z_toString_all_digits (z : Z) : (0 <= z)%Z -> all_digits (Z_toString z) = true.
Proof.
  revert z. apply (Z_nonneg_strong_ind (fun z => all_digits (Z_toString z) = true)). intros z Hz IH.
  destruct (Z.lt_ge_cases z 10) as [Hs|Hb].
  - digit_cases z; reflexivity.
  - rewrite Z_toString_decomp, all_digits_app by exact Hb.
    rewrite !IH; [reflexivity| |].
    + split; [apply Z.mod_pos_bound; lia|]. pose proof (Z.mod_pos_bound z 10). lia.
    + split; [apply Z.div_pos; lia|]. apply Z.div_lt; lia.
Qed.

Lemma Z_toString_nonempty (z : Z) : (0 <= z)%Z -> Z_toString z <> EmptyString.
Proof.
  revert z. apply (Z_nonneg_strong_ind (fun z => Z_toString z <> EmptyString)). intros z Hz IH.
  destruct (Z.lt_ge_cases z 10) as [Hs|Hb].
  - digit_cases z; discriminate.
  - rewrite Z_toString_decomp by exact Hb.
    assert (H : Z_toString (z / 10) <> EmptyString).
    { apply IH. split; [apply Z.div_pos; lia|]. apply Z.div_lt; lia. }
    destruct (Z_toString (z / 10)); [contradiction|discriminate].
Qed.

Lemma parse_digits_app (digit : ascii -> option Z) (radix acc : Z) (a b : string) :
  (forall c, In c (list_ascii_of_string a) -> digit c <> None) ->
  parse_digits digit radix acc (a ++ b) = parse_digits digit radix (parse_digits digit radix acc a) b.
Proof.
  revert acc. induction a as [|c a IH]; intros acc Ha; [reflexivity|].
  simpl. destruct (digit c) eqn:Hc.
  - apply IH. intros c' Hc'. apply Ha. right. exact Hc'.
  - exfalso. apply (Ha c); [left; reflexivity|exact Hc].
Qed.

Lemma all_digits_In (s : string) :
  all_digits s = true -> forall c, In c (list_ascii_of_string s) -> dec_digit c <> None.
Proof.
  induction s as [|c s IH]; simpl; [tauto|].
  destruct (dec_digit c) eqn:Hc; [|discriminate].
  intros Hs c' [<-|Hin]; [rewrite Hc; discriminate|exact (IH Hs c' Hin)].
Qed.

Lemma parse_Z_toString (z : Z) : (0 <= z)%Z -> parse_digits dec_digit 10 0 (Z_toString z) = z.
Proof.
  revert z. apply (Z_nonneg_strong_ind (fun z => parse_digits dec_digit 10 0 (Z_toString z) = z)). intros z Hz IH.
  destruct (Z.lt_ge_cases z 10) as [Hs|Hb].
  - digit_cases z; reflexivity.
  - assert (Hq : (0 <= z / 10 < z)%Z) by (split; [apply Z.div_pos; lia|apply Z.div_lt; lia]).
    assert (Hr : (0 <= z mod 10 < 10)%Z) by (apply Z.mod_pos_bound; lia).
    rewrite Z_toString_decomp by exact Hb.
    rewrite parse_digits_app by (apply all_digits_In, Z_toString_all_digits; lia).
    rewrite IH by lia.
    transitivity (10 * (z / 10) + z mod 10)%Z; [|symmetry; apply Z.div_mod; lia].
    generalize (z / 10)%Z (z mod 10)%Z Hr. intros q r Hr'. digit_cases r; simpl; lia.
Qed.

Lemma parseInt_Z_toString (z : Z) : (0 <= z)%Z -> parseInt dec_digit 10 (Z_toString z) = Some z.
Proof.
  intros Hz. pose proof (parse_Z_toString z Hz) as Hp.
  pose proof (Z_toString_all_digits z Hz) as Hd.
  pose proof (Z_toString_nonempty z Hz) as Hn.
  unfold parseInt. destruct (Z_toString z) as [|c s] eqn:E; [contradiction|].
  simpl in Hd. destruct (dec_digit c) eqn:Hc; [|discriminate].
  rewrite <- Hp. reflexivity.
Qed.

Lemma Z_toString_inj (a b : Z) : (0 <= a)%Z -> (0 <= b)%Z -> Z_toString a = Z_toString b -> a = b.
Proof.
  intros Ha Hb E. rewrite <- (parse_Z_toString a Ha), <- (parse_Z_toString b Hb), E. reflexivity.
Qed.

(** ** Strings *)

Lemma substring_app_r (a b : string) (m k : nat) :
  substring (String.length a + m) k (a ++ b) = substring m k b.
Proof. induction a as [|c a IH]; [reflexivity|]. simpl. exact IH. Qed.

Lemma substring_full (a : string) : substring 0 (String.length a) a = a.
Proof. induction a as [|c a IH]; [reflexivity|]. simpl. rewrite IH. reflexivity. Qed.

Lemma substring_app_l (a b : string) : substring 0 (String.length a) (a ++ b) = a.
Proof. induction a as [|c a IH]; [destruct b; reflexivity|]. simpl. rewrite IH. reflexivity. Qed.

Lemma string_app_assoc (a b c : string) : (a ++ b) ++ c = a ++ (b ++ c).
Proof. induction a as [|x a IH]; [reflexivity|]. simpl. rewrite IH. reflexivity. Qed.

Lemma string_app_nil_r (a : string) : a ++ EmptyString = a.
Proof. induction a as [|x a IH]; [reflexivity|]. simpl. rewrite IH. reflexivity. Qed.

Lemma string_app_length (a b : string) : String.length (a ++ b) = (String.length a + String.length b)%nat.
Proof. induction a as [|x a IH]; [reflexivity|]. simpl. rewrite IH. reflexivity. Qed.

Lemma digit_runs_aux_digits (a cur s : string) :
  all_digits a = true -> digit_runs_aux cur (a ++ s) = digit_runs_aux (cur ++ a) s.
Proof.
  revert cur. induction a as [|c a IH]; intros cur Ha.
  - simpl. rewrite string_app_nil_r. reflexivity.
  - simpl in Ha |- *. destruct (dec_digit c) eqn:Hc; [|discriminate].
    rewrite IH by exact Ha. rewrite string_app_assoc. reflexivity.
Qed.

Lemma digit_runs_rgbString (r g b : Z) : (0 <= r)%Z -> (0 <= g)%Z -> (0 <= b)%Z ->
  digit_runs (rgbString r g b) = [Z_toString r; Z_toString g; Z_toString b].
Proof.
  intros Hr Hg Hb. unfold digit_runs, rgbString. simpl.
  rewrite digit_runs_aux_digits by (apply Z_toString_all_digits; exact Hr).
  pose proof (Z_toString_nonempty r Hr) as Nr.
  destruct (Z_toString r) as [|cr sr]; [contradiction|]. simpl.
  rewrite digit_runs_aux_digits by (apply Z_toString_all_digits; exact Hg).
  pose proof (Z_toString_nonempty g Hg) as Ng.
  destruct (Z_toString g) as [|cg sg]; [contradiction|]. simpl.
  rewrite digit_runs_aux_digits by (apply Z_toString_all_digits; exact Hb).
  pose proof (Z_toString_nonempty b Hb) as Nb.
  destruct (Z_toString b) as [|cb sb]; [contradiction|]. simpl.
  reflexivity.
Qed.

(** X1: for a colour string [rgb(r,g,b)] as the colour extractors print it, with
    non-negative channels, [getContrastColor] reads the three channels back
    and chooses the text colour from their YIQ brightness. *)
Theorem getContrastColor_rgbString (r g b : Z) (Hr : (0 <= r)%Z) (Hg : (0 <= g)%Z) (Hb : (0 <= b)%Z) :
  getContrastColor (rgbString r g b) = yiqChoice (Some r) (Some g) (Some b).
Proof.
  pose proof (digit_runs_rgbString r g b Hr Hg Hb) as Hd.
  unfold getContrastColor. simpl String.eqb. cbn -[digit_runs rgbString].
  unfold rgbString in Hd |- *. simpl in Hd |- *. rewrite Hd.
  rewrite !parseInt_Z_toString by assumption. reflexivity.
Qed.


(** ** Colour extraction *)

Lemma Math_roundZ_byte (x : Q) : 0 <= x <= 255 -> isByte (Math_roundZ x) = true.
Proof.
  intros Hx. pose proof (Math_round_bounds x) as Hb. unfold Math_round in Hb.
  unfold isByte. fold (Math_roundZ x) in Hb.
  apply andb_true_intro; split; apply Z.leb_le.
  - destruct (Z.lt_ge_cases (Math_roundZ x) 0) as [H|H]; [|exact H].
    exfalso. assert (H' : inject_Z (Math_roundZ x) <= -1) by (change (-1) with (inject_Z (-1)); rewrite <- Zle_Qle; lia).
    lra.
  - destruct (Z.lt_ge_cases 255 (Math_roundZ x)) as [H|H]; [|exact H].
    exfalso. assert (H' : 256 <= inject_Z (Math_roundZ x)) by (change 256 with (inject_Z 256); rewrite <- Zle_Qle; lia).
    lra.
Qed.

Lemma isByte_iff (z : Z) : isByte z = true <-> (0 <= z <= 255)%Z.
Proof. unfold isByte. rewrite andb_true_iff, !Z.leb_le. tauto. Qed.

Lemma mean_byte (s : Z) (n : Z) : (0 < n)%Z -> (0 <= s <= 255 * n)%Z ->
  0 <= inject_Z s / inject_Z n <= 255.
Proof.
  intros Hn Hs.
  assert (Hn' : 0 < inject_Z n) by (change 0 with (inject_Z 0); rewrite <- Zlt_Qlt; exact Hn).
  split.
  - apply Qle_shift_div_l; [exact Hn'|]. rewrite Qmult_0_l.
    change 0 with (inject_Z 0). rewrite <- Zle_Qle. lia.
  - apply Qle_shift_div_r; [exact Hn'|].
    change 255 with (inject_Z 255). rewrite <- inject_Z_mult, <- Zle_Qle. lia.
Qed.

Lemma sumChannels_fold (data : list Pixel) (r0 g0 b0 : Z) :
  forallb bytePixel data = true ->
  let '(r, g, b) :=
    fold_left (fun acc p =>
      let '(r, g, b) := acc in let '(pr, pg, pb, _) := p in (r + pr, g + pg, b + pb)%Z)
      data (r0, g0, b0) in
  (r0 <= r <= r0 + 255 * Z.of_nat (List.length data))%Z /\
  (g0 <= g <= g0 + 255 * Z.of_nat (List.length data))%Z /\
  (b0 <= b <= b0 + 255 * Z.of_nat (List.length data))%Z.
Proof.
  revert r0 g0 b0. induction data as [|[[[pr pg] pb] pa] data IH]; intros r0 g0 b0 Hd.
  - simpl. lia.
  - simpl in Hd. apply andb_true_iff in Hd as [Hp Hd].
    unfold bytePixel in Hp. rewrite !andb_true_iff, !isByte_iff in Hp.
    specialize (IH (r0 + pr) (g0 + pg) (b0 + pb) Hd)%Z. simpl.
    destruct (fold_left _ data _) as [[r g] b]. simpl List.length. lia.
Qed.

Lemma sumChannels_bounds (data : list Pixel) : forallb bytePixel data = true ->
  let '(r, g, b) := sumChannels data in
  (0 <= r <= 255 * Z.of_nat (List.length data))%Z /\
  (0 <= g <= 255 * Z.of_nat (List.length data))%Z /\
  (0 <= b <= 255 * Z.of_nat (List.length data))%Z.
Proof. intros Hd. exact (sumChannels_fold data 0 0 0 Hd). Qed.

(** X2: on the 100 pixels of the 10 x 10 thumbnail, all bytes,
    [getDominantColor] returns [rgb(r,g,b)] with three byte channels. *)
Theorem getDominantColor_px_bytes (data : list Pixel)
    (Hlen : List.length data = 100%nat) (Hbytes : forallb bytePixel data = true) :
  exists r g b, getDominantColor_px true data = rgbString r g b /\
    isByte r = true /\ isByte g = true /\ isByte b = true.
Proof.
  pose proof (sumChannels_bounds data Hbytes) as Hs. unfold getDominantColor_px. simpl negb. cbv iota.
  destruct (sumChannels data) as [[r g] b]. rewrite Hlen in Hs. simpl Z.of_nat in Hs.
  eexists _, _, _. split; [reflexivity|].
  repeat split; apply Math_roundZ_byte; change 100 with (inject_Z 100); apply mean_byte; lia.
Qed.

Lemma Qfloor_zero (x : Q) : 0 <= x < 1 -> Qfloor x = 0%Z.
Proof.
  intros [H0 H1].
  pose proof (Qfloor_le x) as Hle. pose proof (Qlt_floor x) as Hlt.
  rewrite inject_Z_plus in Hlt. change (inject_Z 1) with 1 in Hlt.
  destruct (Z.lt_trichotomy (Qfloor x) 0) as [H|[H|H]]; [exfalso|exact H|exfalso].
  - assert (inject_Z (Qfloor x) <= -1) by (change (-1) with (inject_Z (-1)); rewrite <- Zle_Qle; lia). lra.
  - assert (1 <= inject_Z (Qfloor x)) by (change 1 with (inject_Z 1); rewrite <- Zle_Qle; lia). lra.
Qed.

(** X3: when the shorter image side is below 10, the sample size
    floor(min(w, h) * 0.1) is 0 and [getImageData] throws: with a canvas
    context, [getCenterAverageColor] returns no colour. *)
Theorem getCenterAverageColor_px_small (imgW imgH : Q) (data : list Pixel)
    (Hw : 0 <= imgW) (Hh : 0 <= imgH) (Hsmall : Qmin imgW imgH < 10) :
  getCenterAverageColor_px true imgW imgH data = None.
Proof.
  unfold getCenterAverageColor_px. simpl negb. cbv iota.
  pose proof (Qmin_nonneg _ _ Hw Hh).
  rewrite Qfloor_zero by lra. reflexivity.
Qed.

(** X4: when the shorter image side is at least 10 and the centre sample
    holds size * size pixels of bytes, [getCenterAverageColor] returns
    [rgb(r,g,b)] with three byte channels. *)
Theorem getCenterAverageColor_px_bytes (imgW imgH : Q) (data : list Pixel)
    (Hbig : 10 <= Qmin imgW imgH)
    (Hlen : Z.of_nat (List.length data) =
       (Qfloor (Qmin imgW imgH * (1 # 10)) * Qfloor (Qmin imgW imgH * (1 # 10)))%Z)
    (Hbytes : forallb bytePixel data = true) :
  exists r g b, getCenterAverageColor_px true imgW imgH data = Some (rgbString r g b) /\
    isByte r = true /\ isByte g = true /\ isByte b = true.
Proof.
  pose proof (sumChannels_bounds data Hbytes) as Hs. unfold getCenterAverageColor_px. simpl negb. cbv iota.
  assert (Hsz : (1 <= Qfloor (Qmin imgW imgH * (1 # 10)))%Z).
  { assert (H1 : 1 <= Qmin imgW imgH * (1 # 10)) by lra. apply Qfloor_resp_le in H1. exact H1. }
  destruct (Qfloor (Qmin imgW imgH * (1 # 10)) =? 0)%Z eqn:E; [apply Z.eqb_eq in E; lia|].
  destruct (sumChannels data) as [[r g] b]. rewrite Hlen in Hs.
  eexists _, _, _. split; [reflexivity|].
  repeat split; apply Math_roundZ_byte; apply mean_byte; nia.
Qed.

Lemma Qmax_same (a : Q) : Qmax a a = a.
Proof. unfold Qmax, GenericMinMax.gmax. destruct (Qcompare a a); reflexivity. Qed.

Lemma Qmin_same (a : Q) : Qmin a a = a.
Proof. unfold Qmin, GenericMinMax.gmin. destruct (Qcompare a a); reflexivity. Qed.

Lemma rgbToHsl_grey (x : Q) : rgbToHsl x x x = (0, 0, (x / 255 + x / 255) / 2).
Proof.
  unfold rgbToHsl. rewrite !Qmax_same, !Qmin_same.
  replace (Qeq_bool (x / 255) (x / 255)) with true by (symmetry; apply Qeq_bool_iff; reflexivity).
  reflexivity.
Qed.

Lemma highlightPixels_grey (data : list Pixel) :
  forallb greyPixel data = true -> highlightPixels data = [].
Proof.
  intros Hg. unfold highlightPixels.
  replace (filter _ data) with (@nil Pixel); [reflexivity|].
  induction data as [|[[[r g] b] a] data IH]; [reflexivity|].
  simpl in Hg. apply andb_true_iff in Hg as [Hp Hg].
  apply andb_true_iff in Hp as [E1 E2]. apply Z.eqb_eq in E1, E2. subst g b.
  simpl. rewrite rgbToHsl_grey, andb_false_r. exact (IH Hg).
Qed.

(** X5: when every sampled pixel is grey (r = g = b), no pixel has
    saturation above 0.4 and [getHighlightColor] falls back to [#e53e3e]. *)
Theorem getHighlightColor_px_grey (hasCtx : bool) (data : list Pixel)
    (Hgrey : forallb greyPixel data = true) :
  getHighlightColor_px hasCtx data = "#e53e3e".
Proof.
  unfold getHighlightColor_px. rewrite highlightPixels_grey by exact Hgrey.
  destruct hasCtx; reflexivity.
Qed.

Lemma fold_sum_bounds {A : Type} (step : Z -> A -> Z) (l : list A) (s0 : Z) :
  (forall s c, In c l -> s <= step s c <= s + 255)%Z ->
  (s0 <= fold_left step l s0 <= s0 + 255 * Z.of_nat (List.length l))%Z.
Proof.
  revert s0. induction l as [|c l IH]; intros s0 Hs; [simpl; lia|].
  simpl. specialize (Hs s0 c (or_introl eq_refl)) as Hc.
  specialize (IH (step s0 c) (fun s c' H => Hs s c' (or_intror H))). lia.
Qed.

Lemma highlightPixels_bytes (data : list Pixel) : forallb bytePixel data = true ->
  forall r g b, In (r, g, b) (highlightPixels data) ->
  (0 <= r <= 255)%Z /\ (0 <= g <= 255)%Z /\ (0 <= b <= 255)%Z.
Proof.
  intros Hd r g b Hin. unfold highlightPixels in Hin.
  apply in_map_iff in Hin as [[[[r' g'] b'] a'] [E Hin]]. injection E as <- <- <-.
  apply filter_In in Hin as [Hin _].
  rewrite forallb_forall in Hd. specialize (Hd _ Hin).
  unfold bytePixel in Hd. rewrite !andb_true_iff, !isByte_iff in Hd. tauto.
Qed.

(** X6: when the pixels are bytes and at least one of them is bright and
    saturated (l > 0.4 and s > 0.4), [getHighlightColor] returns the
    rounded mean [rgb(r,g,b)] of those pixels ([highlightPixels]): each
    channel is [Math.round] of the channel's sum over them divided by
    their number, and is a byte. *)
Theorem getHighlightColor_px_bytes (data : list Pixel)
    (Hbytes : forallb bytePixel data = true) (Hsel : highlightPixels data <> []) :
  let sel := highlightPixels data in
  let n := inject_Z (Z.of_nat (List.length sel)) in
  exists r g b, getHighlightColor_px true data = rgbString r g b /\
    r = Math_roundZ (inject_Z (fold_left (fun s c => let '(r, _, _) := c in (s + r)%Z) sel 0%Z) / n) /\
    g = Math_roundZ (inject_Z (fold_left (fun s c => let '(_, g, _) := c in (s + g)%Z) sel 0%Z) / n) /\
    b = Math_roundZ (inject_Z (fold_left (fun s c => let '(_, _, b) := c in (s + b)%Z) sel 0%Z) / n) /\
    isByte r = true /\ isByte g = true /\ isByte b = true.
Proof.
  cbv zeta.
  pose proof (highlightPixels_bytes data Hbytes) as Hb.
  unfold getHighlightColor_px. simpl negb. cbv iota.
  destruct (highlightPixels data) as [|c0 cs] eqn:E; [contradiction|].
  rewrite <- E in Hb |- *.
  assert (Hn : (0 < Z.of_nat (List.length (highlightPixels data)))%Z) by (rewrite E; simpl; lia).
  eexists _, _, _. split; [reflexivity|].
  split; [reflexivity|]. split; [reflexivity|]. split; [reflexivity|].
  repeat split; apply Math_roundZ_byte; apply mean_byte; try exact Hn;
    match goal with
    | |- (0 <= fold_left ?st ?l 0 <= _)%Z =>
        enough (HF : (0 <= fold_left st l 0 <= 0 + 255 * Z.of_nat (List.length l))%Z) by lia;
        apply fold_sum_bounds
    end; intros s [[r g] b] Hin; specialize (Hb r g b Hin); lia.
Qed.

Lemma div_unit (u d : Q) : 0 < d -> 0 <= u <= d -> 0 <= u / d <= 1.
Proof.
  intros Hd [H0 H1]. split.
  - apply Qle_shift_div_l; [exact Hd|]. lra.
  - apply Qle_shift_div_r; [exact Hd|]. lra.
Qed.

Lemma div_signed_unit (u d : Q) : 0 < d -> - d <= u <= d -> -1 <= u / d <= 1.
Proof.
  intros Hd [H0 H1]. split.
  - apply Qle_shift_div_l; [exact Hd|]. lra.
  - apply Qle_shift_div_r; [exact Hd|]. lra.
Qed.

Lemma div_neg (u d : Q) : 0 < d -> u < 0 -> u / d < 0.
Proof. intros Hd Hu. apply Qlt_shift_div_r; [exact Hd|]. lra. Qed.

(** X7: for channels in 0..255, [rgbToHsl] returns a hue in [0, 1) and a
    saturation and lightness in [0, 1]. *)
Theorem rgbToHsl_range (x y z : Q) (Hx : 0 <= x <= 255) (Hy : 0 <= y <= 255) (Hz : 0 <= z <= 255) :
  let '(h, s, l) := rgbToHsl x y z in 0 <= h < 1 /\ 0 <= s <= 1 /\ 0 <= l <= 1.
Proof.
  unfold rgbToHsl.
  assert (Ha : 0 <= x / 255 <= 1) by (rewrite Qdiv_pos_lit; lra).
  assert (Hb : 0 <= y / 255 <= 1) by (rewrite Qdiv_pos_lit; lra).
  assert (Hc : 0 <= z / 255 <= 1) by (rewrite Qdiv_pos_lit; lra).
  generalize dependent (z / 255). generalize dependent (y / 255). generalize dependent (x / 255).
  intros a Ha b Hb c Hc.
  pose proof (Q.le_max_l a b). pose proof (Q.le_max_r a b). pose proof (Q.le_max_r (Qmax a b) c).
  pose proof (Q.le_max_l (Qmax a b) c).
  pose proof (Q.le_min_l a b). pose proof (Q.le_min_r a b). pose proof (Q.le_min_r (Qmin a b) c).
  pose proof (Q.le_min_l (Qmin a b) c).
  assert (HM1 : Qmax (Qmax a b) c <= 1) by (apply Q.max_lub; [apply Q.max_lub|]; lra).
  assert (Hm0 : 0 <= Qmin (Qmin a b) c) by (apply Q.min_glb; [apply Q.min_glb|]; lra).
  set (M := Qmax (Qmax a b) c) in *. set (m := Qmin (Qmin a b) c) in *.
  assert (HaM : a <= M) by lra. assert (HbM : b <= M) by lra. assert (HcM : c <= M) by lra.
  assert (Ham : m <= a) by lra. assert (Hbm : m <= b) by lra. assert (Hcm : m <= c) by lra.
  clearbody M m.
  destruct (Qeq_bool M m) eqn:Emm; simpl negb; cbv beta iota zeta; rewrite ?Qdiv_2.
  - split; [lra|]. split; lra.
  - assert (Hlt : m < M).
    { destruct (Qlt_le_dec m M) as [Hl|Hl]; [exact Hl|].
      assert (Heq : M == m) by lra. apply Qeq_bool_iff in Heq. congruence. }
    split; [|split; [|rewrite ?Qdiv_2; lra]].
    + rewrite Qdiv_pos_lit.
      destruct (Qeq_bool M a) eqn:E1; [|destruct (Qeq_bool M b) eqn:E2; [|destruct (Qeq_bool M c) eqn:E3]].
      * destruct (Qltb b c) eqn:E4.
        -- apply Qltb_true in E4.
           pose proof (div_signed_unit (b - c) (M - m)) as HD.
           pose proof (div_neg (b - c) (M - m)) as HN. lra.
        -- apply Qltb_false in E4.
           pose proof (div_unit (b - c) (M - m)) as HD. lra.
      * pose proof (div_signed_unit (c - a) (M - m)) as HD. lra.
      * pose proof (div_signed_unit (a - b) (M - m)) as HD. lra.
      * lra.
    + destruct (Qltb (1 # 2) ((M + m) / 2)) eqn:E.
      * apply Qltb_true in E. rewrite Qdiv_2 in E. apply div_unit; lra.
      * apply Qltb_false in E. rewrite Qdiv_2 in E. apply div_unit; lra.
Qed.

(** ** Colour state *)

Lemma run_cons (env : Collaborators) (s : AppState) (e : Event) (es : list Event) :
  run env s (e :: es) = run env (step env s e) es.
Proof. reflexivity. Qed.

Lemma step_autoConsistent (env : Collaborators) (s : AppState) (e : Event) :
  autoConsistent env s -> autoConsistent env (step env s e).
Proof.
  unfold autoConsistent. intros Hs. destruct e as [img| |c]; simpl.
  - unfold handleImageLoad.
    destruct (isSupportedAspectRatio (imgWidth img) (imgHeight img)); simpl.
    + destruct (isFilmScanExif env (readExif env img)); simpl; intros _; reflexivity.
    + exact Hs.
  - exact I.
  - unfold handleColorChange.
    destruct (String.eqb c "retroblue") eqn:E1; [|destruct (String.eqb c "snap") eqn:E2;
      [|destruct (String.eqb c "auto") eqn:E3]]; simpl.
    + destruct (String.eqb (color s) "retroblue") eqn:E4; simpl.
      * destruct (image s); [|exact I]. intros E. apply String.eqb_eq in E, E4. congruence.
      * destruct (image s); [discriminate|exact I].
    + destruct (String.eqb (color s) "snap") eqn:E4; simpl.
      * destruct (image s); [|exact I]. intros E. apply String.eqb_eq in E, E4. congruence.
      * destruct (image s); [discriminate|exact I].
    + destruct (String.eqb (color s) "auto") eqn:E4; simpl;
        destruct (image s) as [i|]; simpl; try exact I; intros _; unfold autoColorFor.
      * destruct (autoPattern s =? 1)%nat eqn:P1; [reflexivity|].
        destruct (autoPattern s =? 2)%nat eqn:P2; reflexivity.
      * reflexivity.
    + destruct (image s); [exact (fun E => ltac:(congruence))|exact I].
Qed.

Lemma run_autoConsistent (env : Collaborators) (s : AppState) (es : list Event) :
  autoConsistent env s -> autoConsistent env (run env s es).
Proof.
  revert s. induction es as [|e es IH]; intros s Hs; [exact Hs|].
  rewrite run_cons. apply IH, step_autoConsistent, Hs.
Qed.

(** X8: in every state reached from the initial state, when the frame
    colour is [auto] and an image is loaded, the stored auto colour is the
    one the current auto pattern selects for that image ([autoColorFor]:
    for pattern 2 the centre average, or the dominant colour when
    [getCenterAverageColor] throws). *)
Theorem auto_color_tracks_pattern (env : Collaborators) (es : list Event) :
  autoConsistent env (run env initialState es).
Proof. apply run_autoConsistent. exact I. Qed.

Lemma step_patternsInRange (env : Collaborators) (s : AppState) (e : Event) :
  patternsInRange s -> patternsInRange (step env s e).
Proof.
  unfold patternsInRange. intros (Hs & Hr & Ha). destruct e as [img| |c]; simpl.
  - unfold handleImageLoad.
    destruct (isSupportedAspectRatio (imgWidth img) (imgHeight img)); simpl.
    + destruct (isFilmScanExif env (readExif env img)); simpl; auto.
    + auto.
  - auto.
  - unfold handleColorChange.
    destruct (String.eqb c "retroblue"); [|destruct (String.eqb c "snap");
      [|destruct (String.eqb c "auto")]]; simpl.
    + destruct (String.eqb (color s) "retroblue"); simpl; [|auto].
      destruct (retrobluePattern s =? 1)%nat; auto.
    + destruct (String.eqb (color s) "snap"); simpl; [|auto].
      destruct (snapPattern s =? 1)%nat; auto.
    + destruct (String.eqb (color s) "auto"); simpl; [|auto].
      destruct (autoPattern s =? 1)%nat; [auto|]. destruct (autoPattern s =? 2)%nat; auto.
    + auto.
Qed.

(** X9: in every state reached from the initial state, the snap and
    retroblue patterns are 1 or 2 and the auto pattern is 1, 2 or 3. *)
Theorem run_patterns_in_range (env : Collaborators) (es : list Event) :
  let s := run env initialState es in
  (snapPattern s = 1 \/ snapPattern s = 2)%nat /\
  (retrobluePattern s = 1 \/ retrobluePattern s = 2)%nat /\
  (autoPattern s = 1 \/ autoPattern s = 2 \/ autoPattern s = 3)%nat.
Proof.
  assert (H : forall s, patternsInRange s -> patternsInRange (run env s es)).
  { induction es as [|e es IH]; intros s Hs; [exact Hs|].
    rewrite run_cons. apply IH, step_patternsInRange, Hs. }
  apply H. unfold patternsInRange. simpl. auto.
Qed.

Lemma flipPattern_range (p : nat) : (flipPattern p = 1 \/ flipPattern p = 2)%nat.
Proof. unfold flipPattern. destruct (p =? 1)%nat; auto. Qed.

Lemma flipPattern_twice (p : nat) : (p = 1 \/ p = 2)%nat -> flipPattern (flipPattern p) = p.
Proof. intros [-> | ->]; reflexivity. Qed.

Lemma even_flip (n p : nat) : (p = 1 \/ p = 2)%nat ->
  (if Nat.even n then flipPattern p else flipPattern (flipPattern p)) =
  (if Nat.even (S n) then p else flipPattern p).
Proof.
  intros Hp. rewrite Nat.even_succ, <- Nat.negb_even.
  destruct (Nat.even n); simpl; [reflexivity|]. apply flipPattern_twice, Hp.
Qed.

Lemma snap_clicks_from_snap (env : Collaborators) (n : nat) (t : AppState) :
  color t = "snap" -> (snapPattern t = 1 \/ snapPattern t = 2)%nat ->
  color (run env t (repeat (EvColorChange "snap") n)) = "snap" /\
  snapPattern (run env t (repeat (EvColorChange "snap") n)) =
    (if Nat.even n then snapPattern t else flipPattern (snapPattern t)).
Proof.
  revert t. induction n as [|n IH]; intros t Ht Hp0; [split; [exact Ht|reflexivity]|].
  simpl repeat. rewrite run_cons.
  assert (Hst : color (step env t (EvColorChange "snap")) = "snap" /\
                snapPattern (step env t (EvColorChange "snap")) = flipPattern (snapPattern t)).
  { simpl. unfold handleColorChange. simpl. rewrite Ht. simpl. split; reflexivity. }
  destruct Hst as [Hc Hp]. destruct (IH _ Hc) as [IH1 IH2]; [rewrite Hp; apply flipPattern_range|].
  split; [exact IH1|]. rewrite IH2, Hp. apply even_flip, Hp0.
Qed.

Lemma retroblue_clicks_from_retroblue (env : Collaborators) (n : nat) (t : AppState) :
  color t = "retroblue" -> (retrobluePattern t = 1 \/ retrobluePattern t = 2)%nat ->
  color (run env t (repeat (EvColorChange "retroblue") n)) = "retroblue" /\
  retrobluePattern (run env t (repeat (EvColorChange "retroblue") n)) =
    (if Nat.even n then retrobluePattern t else flipPattern (retrobluePattern t)).
Proof.
  revert t. induction n as [|n IH]; intros t Ht Hp0; [split; [exact Ht|reflexivity]|].
  simpl repeat. rewrite run_cons.
  assert (Hst : color (step env t (EvColorChange "retroblue")) = "retroblue" /\
                retrobluePattern (step env t (EvColorChange "retroblue")) = flipPattern (retrobluePattern t)).
  { simpl. unfold handleColorChange. simpl. rewrite Ht. simpl. split; reflexivity. }
  destruct Hst as [Hc Hp]. destruct (IH _ Hc) as [IH1 IH2]; [rewrite Hp; apply flipPattern_range|].
  split; [exact IH1|]. rewrite IH2, Hp. apply even_flip, Hp0.
Qed.

(** X10: from a colour other than [snap], n + 1 clicks on [snap] select it:
    the first click sets the snap pattern to 1 and each further click
    toggles it, so the frame colour is the first snap colour when n is even
    and the second when n is odd. *)
Theorem snap_clicks_alternate (env : Collaborators) (s : AppState) (n : nat)
    (Hc : String.eqb (color s) "snap" = false) :
  let s' := run env s (repeat (EvColorChange "snap") (S n)) in
  color s' = "snap" /\
  getFrameColor (color s') (autoColor s') (snapPattern s') (retrobluePattern s') =
    (if Nat.even n then SNAP_COLORS_pattern1 else SNAP_COLORS_pattern2).
Proof.
  simpl repeat. rewrite run_cons.
  set (t := step env s (EvColorChange "snap")).
  assert (Ht : color t = "snap" /\ snapPattern t = 1%nat).
  { subst t. simpl. unfold handleColorChange. simpl. rewrite Hc. split; reflexivity. }
  destruct Ht as [Ht1 Ht2].
  destruct (snap_clicks_from_snap env n t Ht1 (or_introl Ht2)) as [H1 H2].
  simpl. rewrite H1, H2, Ht2. split; [reflexivity|].
  destruct (Nat.even n); reflexivity.
Qed.

(** X11: the same alternation for n + 1 clicks on [retroblue] from another
    colour. *)
Theorem retroblue_clicks_alternate (env : Collaborators) (s : AppState) (n : nat)
    (Hc : String.eqb (color s) "retroblue" = false) :
  let s' := run env s (repeat (EvColorChange "retroblue") (S n)) in
  color s' = "retroblue" /\
  getFrameColor (color s') (autoColor s') (snapPattern s') (retrobluePattern s') =
    (if Nat.even n then RETROBLUE_COLORS_pattern1 else RETROBLUE_COLORS_pattern2).
Proof.
  simpl repeat. rewrite run_cons.
  set (t := step env s (EvColorChange "retroblue")).
  assert (Ht : color t = "retroblue" /\ retrobluePattern t = 1%nat).
  { subst t. simpl. unfold handleColorChange. simpl. rewrite Hc. split; reflexivity. }
  destruct Ht as [Ht1 Ht2].
  destruct (retroblue_clicks_from_retroblue env n t Ht1 (or_introl Ht2)) as [H1 H2].
  simpl. rewrite H1, H2, Ht2. split; [reflexivity|].
  destruct (Nat.even n); reflexivity.
Qed.

Lemma auto_clicks_from_auto (env : Collaborators) (i : Img) (n k : nat) (t : AppState) :
  color t = "auto" -> image t = Some i -> autoPattern t = S k -> (k < 3)%nat ->
  let t' := run env t (repeat (EvColorChange "auto") n) in
  color t' = "auto" /\ image t' = Some i /\ autoPattern t' = S ((k + n) mod 3) /\
  (n <> 0%nat -> autoColor t' = autoColorFor env i (S ((k + n) mod 3))).
Proof.
  revert t k. induction n as [|n IH]; intros t k Hc Hi Hp Hk.
  - cbv zeta. rewrite Nat.add_0_r, Nat.mod_small by exact Hk. simpl. repeat split; auto. intros []; reflexivity.
  - simpl repeat. rewrite run_cons.
    set (t1 := step env t (EvColorChange "auto")).
    assert (H1 : color t1 = "auto" /\ image t1 = Some i /\ autoPattern t1 = S ((k + 1) mod 3) /\
                 autoColor t1 = autoColorFor env i (S ((k + 1) mod 3))).
    { subst t1. simpl. unfold handleColorChange. simpl. rewrite Hc, Hi, Hp. simpl.
      assert (Hk' : k = 0%nat \/ k = 1%nat \/ k = 2%nat) by lia.
      destruct Hk' as [-> | [-> | ->]]; repeat split; reflexivity. }
    destruct H1 as (H1c & H1i & H1p & H1a).
    assert (Hk1 : ((k + 1) mod 3 < 3)%nat) by (apply Nat.mod_upper_bound; lia).
    destruct (IH t1 ((k + 1) mod 3) H1c H1i H1p Hk1) as (IHc & IHi & IHp & IHa).
    assert (Hm : (((k + 1) mod 3 + n) mod 3 = (k + S n) mod 3)%nat).
    { rewrite Nat.Div0.add_mod_idemp_l. f_equal. lia. }
    rewrite Hm in IHp, IHa.
    split; [exact IHc|split; [exact IHi|split; [exact IHp|]]].
    intros _. destruct n as [|n'].
    + change (autoColor t1 = autoColorFor env i (S ((k + 1) mod 3))). exact H1a.
    + apply IHa. discriminate.
Qed.

(** X12: with an image loaded and a colour other than [auto], n + 1 clicks
    on [auto] select it: the first click sets the auto pattern to 1 and
    each further click advances it 1 -> 2 -> 3 -> 1, so it ends on
    1 + (n mod 3), and the frame colour is the colour that pattern selects
    for the image ([autoColorFor]: for pattern 2 the dominant colour when
    [getCenterAverageColor] throws). *)
Theorem auto_clicks_cycle (env : Collaborators) (s : AppState) (i : Img) (n : nat)
    (Himg : image s = Some i) (Hc : String.eqb (color s) "auto" = false) :
  let s' := run env s (repeat (EvColorChange "auto") (S n)) in
  autoPattern s' = S (n mod 3) /\
  getFrameColor (color s') (autoColor s') (snapPattern s') (retrobluePattern s') =
    autoColorFor env i (S (n mod 3)).
Proof.
  simpl repeat. rewrite run_cons.
  set (t := step env s (EvColorChange "auto")).
  assert (Ht : color t = "auto" /\ image t = Some i /\ autoPattern t = 1%nat /\
               autoColor t = autoColorFor env i 1).
  { subst t. simpl. unfold handleColorChange. simpl. rewrite Hc, Himg. repeat split; reflexivity. }
  destruct Ht as (Ht1 & Ht2 & Ht3 & Ht4).
  destruct (auto_clicks_from_auto env i n 0 t Ht1 Ht2 Ht3 ltac:(lia)) as (H1 & H2 & H3 & H4).
  simpl in H3, H4. cbv zeta. rewrite H1, H3. split; [reflexivity|].
  unfold getFrameColor. simpl.
  destruct n as [|n']; [exact Ht4|]. apply H4. discriminate.
Qed.

(** ** Caption lines *)

Lemma str_truthy_true (s : string) : str_truthy s = true <-> s <> EmptyString.
Proof.
  unfold str_truthy. rewrite negb_true_iff. split.
  - intros H E. subst. discriminate.
  - intros H. destruct s; [contradiction|reflexivity].
Qed.

Lemma str_truthy_false (s : string) : str_truthy s = false <-> s = EmptyString.
Proof.
  unfold str_truthy. rewrite negb_false_iff. split.
  - intros H. apply String.eqb_eq, H.
  - intros ->. reflexivity.
Qed.

Lemma str_or_truthy_l (a b : string) : str_truthy a = true -> str_truthy (str_or a b) = true.
Proof. unfold str_or. intros H. rewrite H. exact H. Qed.

Lemma normalizeModel_truthy (cam : CameraAliases) (model : option string) :
  str_truthy (opt_str model) = true -> str_truthy (normalizeModel cam model) = true.
Proof.
  intros H. unfold normalizeModel. rewrite H. simpl. unfold str_or.
  destruct (str_truthy (opt_str (models cam (opt_str model)))) eqn:E; [exact E|exact H].
Qed.

Lemma generateCameraName_truthy (cam : CameraAliases) (make model : option string) :
  str_truthy (opt_str model) = true -> str_truthy (generateCameraName cam make model) = true.
Proof.
  intros H. pose proof (normalizeModel_truthy cam model H) as Hm.
  unfold generateCameraName. rewrite H. simpl negb. cbv iota zeta.
  rewrite Hm, andb_true_r.
  destruct (str_truthy (normalizeMake cam make)) eqn:Ek.
  - destruct (includes _ _); [exact Hm|].
    destruct (includes _ _); [exact Ek|].
    apply str_truthy_true. destruct (normalizeMake cam make); [discriminate|discriminate].
  - apply str_or_truthy_l, Hm.
Qed.

Lemma getCameraName_truthy (cam : CameraAliases) (make model : option string) :
  str_truthy (opt_str model) = true -> str_truthy (getCameraName cam make model) = true.
Proof.
  intros H. unfold getCameraName. rewrite H. simpl negb. cbv iota.
  destruct (str_truthy (opt_str (aliases cam (opt_str model)))) eqn:E; [exact E|].
  apply generateCameraName_truthy, H.
Qed.

Lemma getCameraName_falsy (cam : CameraAliases) (make model : option string) :
  str_truthy (opt_str model) = false -> getCameraName cam make model = EmptyString.
Proof. intros H. unfold getCameraName. rewrite H. reflexivity. Qed.

Lemma replace_first_shot_on (x : string) : replace_first "Shot on " ("Shot on " ++ x) = x.
Proof.
  unfold replace_first. simpl.
  replace (String.prefix EmptyString x) with true by (destruct x; reflexivity).
  rewrite Nat.sub_0_r. apply substring_full.
Qed.

Lemma drawCaption_texts (width height padBottom imageDrawTop imageDrawHeight : Q)
    (line0 line1 frameColor : string) (space : Space) (ratio : Ratio) (imageWidth imageHeight : Q) :
  map cmdText (cmds (drawCaption width height padBottom imageDrawTop imageDrawHeight line0 line1
                       frameColor space ratio imageWidth imageHeight)) =
  app (if String.eqb line0 EmptyString then [] else ["Shot on "; replace_first "Shot on " line0])
      (if String.eqb line1 EmptyString then [] else [line1]).
Proof.
  unfold drawCaption. cbv zeta.
  destruct (String.eqb frameColor SNAP_COLORS_pattern2);
    [|destruct (String.eqb frameColor SNAP_COLORS_pattern1)];
    destruct (String.eqb line0 EmptyString); destruct (String.eqb line1 EmptyString); reflexivity.
Qed.

(** X13: [drawCaption] on the lines of [getCaptionLines] draws ["Shot on "]
    and the camera name when the EXIF model is non-empty, then the settings
    line when it is non-empty; on manually entered lines it draws
    ["Shot on "] and the camera, then the place, each when non-empty. *)
Theorem caption_camera_drawn (cam : CameraAliases) (other : Q -> string) (exif : ExifData)
    (manualCamera manualPlace : string)
    (width height padBottom imageDrawTop imageDrawHeight : Q) (frameColor : string)
    (space : Space) (ratio : Ratio) (imageWidth imageHeight : Q) :
  (let '(l1, l2) := getCaptionLines_impl cam other exif in
   map cmdText (cmds (drawCaption width height padBottom imageDrawTop imageDrawHeight l1 l2
                        frameColor space ratio imageWidth imageHeight)) =
   app (if str_truthy (opt_str (exModel exif))
        then ["Shot on "; getCameraName cam (exMake exif) (exModel exif)] else [])
       (if str_truthy l2 then [l2] else [])) /\
  (let '(l1, l2) := manualCaptionLines manualCamera manualPlace in
   map cmdText (cmds (drawCaption width height padBottom imageDrawTop imageDrawHeight l1 l2
                        frameColor space ratio imageWidth imageHeight)) =
   app (if str_truthy manualCamera then ["Shot on "; manualCamera] else [])
       (if str_truthy manualPlace then [manualPlace] else [])).
Proof.
  split.
  - unfold getCaptionLines_impl. cbv zeta. rewrite drawCaption_texts. f_equal.
    + destruct (str_truthy (opt_str (exModel exif))) eqn:E.
      * pose proof (getCameraName_truthy cam (exMake exif) (exModel exif) E) as Hc.
        rewrite Hc. cbv beta iota. rewrite replace_first_shot_on. reflexivity.
      * rewrite (getCameraName_falsy cam (exMake exif) (exModel exif) E). reflexivity.
    + unfold str_truthy. destruct (String.eqb _ EmptyString); reflexivity.
  - unfold manualCaptionLines. rewrite drawCaption_texts. f_equal.
    + destruct (str_truthy manualCamera) eqn:E; cbv beta iota; [|reflexivity].
      rewrite replace_first_shot_on. reflexivity.
    + unfold str_or. destruct (str_truthy manualPlace) eqn:E.
      * unfold str_truthy in E. rewrite negb_true_iff in E. rewrite E. reflexivity.
      * reflexivity.
Qed.

(** ** Number formatting *)






(** ** Panel position *)

Lemma Qle_bool_false (a b : Q) : Qle_bool a b = false -> b < a.
Proof.
  intros E. apply Qnot_le_lt. intros H. apply Qle_bool_iff in H. congruence.
Qed.

Ltac bool_to_Q :=
  repeat match goal with
  | E : Qltb _ _ = true |- _ => apply Qltb_true in E
  | E : Qltb _ _ = false |- _ => apply Qltb_false in E
  | E : Qle_bool _ _ = true |- _ => apply Qle_bool_iff in E
  | E : Qle_bool _ _ = false |- _ => apply Qle_bool_false in E
  end.

(** X15: while dragging on a desktop, [handleMouseMove] always sets a
    position with non-negative coordinates, at most innerWidth - 280 and
    innerHeight - 320 when these are non-negative, and equal to the pointer
    minus the grab offset when that lies inside those bounds. *)
Theorem drag_position_clamped (offset : PanelPos) (W H cx cy : Q) :
  exists p, handleMouseMove true false offset W H cx cy = Some p /\
    0 <= px p /\ 0 <= py p /\
    (280 <= W -> px p <= W - 280) /\ (320 <= H -> py p <= H - 320) /\
    (0 <= cx - px offset <= W - 280 -> px p == cx - px offset) /\
    (0 <= cy - py offset <= H - 320 -> py p == cy - py offset).
Proof.
  eexists. split; [reflexivity|]. simpl px; simpl py.
  set (nx := cx - px offset). set (ny := cy - py offset).
  pose proof (Q.le_max_l 0 (Qmin nx (W - 280))). pose proof (Q.le_max_l 0 (Qmin ny (H - 320))).
  repeat split; try assumption.
  - intros HW. apply Q.max_lub; [lra|apply Q.le_min_r].
  - intros HH. apply Q.max_lub; [lra|apply Q.le_min_r].
  - intros [A B]. rewrite (Q.min_l _ _ B). apply Q.max_r. exact A.
  - intros [A B]. rewrite (Q.min_l _ _ B). apply Q.max_r. exact A.
Qed.

(** X16: on a window of at least 300 x 400 and a non-negative canvas width,
    the panel position after [handlePanelResize] (the new one, or the old
    one when nothing is updated) lies in [20, innerWidth - 280] x
    [20, innerHeight - 380]. *)
Theorem panel_resize_in_view (W H c : Q) (p : PanelPos)
    (HW : 300 <= W) (HH : 400 <= H) (Hc : 0 <= c) :
  let q := match handlePanelResize W H c p with Some q => q | None => p end in
  20 <= px q <= W - 280 /\ 20 <= py q <= H - 380.
Proof.
  unfold handlePanelResize. cbv zeta.
  assert (Hw2 : 0 <= W / 2) by (apply Qle_shift_div_l; [reflexivity|lra]).
  assert (Hc2 : 0 <= c / 2) by (apply Qle_shift_div_l; [reflexivity|lra]).
  assert (Hd : 360 / 2 == 180) by reflexivity.
  set (w2 := W / 2) in *. set (c2 := c / 2) in *. set (d := 360 / 2) in *.
  destruct p as [x y]. simpl px; simpl py.
  repeat match goal with
  | |- context [Qltb ?a ?b] => destruct (Qltb a b) eqn:?
  | |- context [Qle_bool ?a ?b] => destruct (Qle_bool a b) eqn:?
  end; cbn [orb andb px py]; bool_to_Q; lra.
Qed.

(** ** Download file name *)

Lemma string_app_cancel_l (a b c : string) : a ++ b = a ++ c -> b = c.
Proof. induction a as [|x a IH]; simpl; [tauto|]. intros E. injection E. exact IH. Qed.

Lemma digits_sep (a b : string) (c : ascii) (r1 r2 : string) :
  all_digits a = true -> all_digits b = true -> dec_digit c = None ->
  a ++ String c r1 = b ++ String c r2 -> a = b /\ r1 = r2.
Proof.
  revert b. induction a as [|x a IH]; intros [|y b] Ha Hb Hc E; simpl in *.
  - injection E. auto.
  - injection E as -> _. rewrite Hc in Hb. discriminate.
  - injection E as <- _. rewrite Hc in Ha. discriminate.
  - injection E as -> E. destruct (dec_digit y); [|discriminate].
    destruct (IH b Ha Hb Hc E) as [-> ->]. auto.
Qed.

Lemma app_same_length (a b r1 r2 : string) :
  String.length a = String.length b -> a ++ r1 = b ++ r2 -> a = b /\ r1 = r2.
Proof.
  revert b. induction a as [|x a IH]; intros [|y b] L E; simpl in *; try discriminate.
  - auto.
  - injection L as L. injection E as -> E. destruct (IH b L E) as [-> ->]. auto.
Qed.

Lemma Z_toString_two_digits (n : Z) : (10 <= n < 100)%Z -> String.length (Z_toString n) = 2%nat.
Proof.
  intros Hn. rewrite Z_toString_decomp by lia. rewrite string_app_length.
  rewrite !Z_toString_digit_length; [reflexivity| |].
  - apply Z.mod_pos_bound. lia.
  - split; [apply Z.div_le_lower_bound; lia|apply Z.div_lt_upper_bound; lia].
Qed.

Lemma pad2_length (n : Z) : (0 <= n < 100)%Z -> String.length (padStart2 (Z_toString n)) = 2%nat.
Proof.
  intros Hn. destruct (Z.lt_ge_cases n 10) as [Hs|Hb].
  - unfold padStart2. rewrite (Z_toString_digit_length n) by lia.
    simpl. rewrite (Z_toString_digit_length n) by lia. reflexivity.
  - unfold padStart2. rewrite Z_toString_two_digits by lia. apply Z_toString_two_digits. lia.
Qed.

Lemma pad2_parse (n : Z) : (0 <= n < 100)%Z ->
  parse_digits dec_digit 10 0 (padStart2 (Z_toString n)) = n.
Proof.
  intros Hn. destruct (Z.lt_ge_cases n 10) as [Hs|Hb].
  - unfold padStart2. rewrite (Z_toString_digit_length n) by lia. cbv iota.
    rewrite parse_digits_app by (intros c Hc; simpl in Hc; destruct Hc as [<-|[]]; discriminate).
    change (parse_digits dec_digit 10 0 "0") with 0%Z.
    apply parse_Z_toString. lia.
  - unfold padStart2. rewrite Z_toString_two_digits by lia. apply parse_Z_toString. lia.
Qed.

Lemma pad2_inj (n m : Z) : (0 <= n < 100)%Z -> (0 <= m < 100)%Z ->
  padStart2 (Z_toString n) = padStart2 (Z_toString m) -> n = m.
Proof.
  intros Hn Hm E. rewrite <- (pad2_parse n Hn), <- (pad2_parse m Hm), E. reflexivity.
Qed.

(** X17: two download file names built from valid local dates (month 0..11,
    day 1..31, hour 0..23, minute 0..59, non-negative year) are equal only
    when year, month, day, hour, minute and ratio all coincide. *)
Theorem downloadFilename_injective (y1 mo1 d1 h1 mi1 : Z) (r1 : Ratio)
    (y2 mo2 d2 h2 mi2 : Z) (r2 : Ratio)
    (Hy1 : (0 <= y1)%Z) (Hmo1 : (0 <= mo1 <= 11)%Z) (Hd1 : (1 <= d1 <= 31)%Z)
    (Hh1 : (0 <= h1 <= 23)%Z) (Hmi1 : (0 <= mi1 <= 59)%Z)
    (Hy2 : (0 <= y2)%Z) (Hmo2 : (0 <= mo2 <= 11)%Z) (Hd2 : (1 <= d2 <= 31)%Z)
    (Hh2 : (0 <= h2 <= 23)%Z) (Hmi2 : (0 <= mi2 <= 59)%Z) :
  downloadFilename y1 mo1 d1 h1 mi1 r1 = downloadFilename y2 mo2 d2 h2 mi2 r2 ->
  y1 = y2 /\ mo1 = mo2 /\ d1 = d2 /\ h1 = h2 /\ mi1 = mi2 /\ r1 = r2.
Proof.
  unfold downloadFilename. cbv zeta. intros E.
  apply string_app_cancel_l in E.
  destruct (digits_sep _ _ "-"%char _ _ (Z_toString_all_digits y1 Hy1) (Z_toString_all_digits y2 Hy2)
              eq_refl E) as [Ey E1].
  apply (Z_toString_inj _ _ Hy1 Hy2) in Ey.
  assert (Lp : forall a b, (0 <= a < 100)%Z -> (0 <= b < 100)%Z ->
    String.length (padStart2 (Z_toString a)) = String.length (padStart2 (Z_toString b))).
  { intros a b Ha Hb. rewrite (pad2_length a Ha), (pad2_length b Hb). reflexivity. }
  destruct (app_same_length _ _ _ _ (Lp (mo1 + 1)%Z (mo2 + 1)%Z ltac:(lia) ltac:(lia)) E1) as [Emo E2].
  destruct (app_same_length _ _ _ _ (Lp d1 d2 ltac:(lia) ltac:(lia)) E2) as [Ed E3].
  injection E3 as E3.
  destruct (app_same_length _ _ _ _ (Lp h1 h2 ltac:(lia) ltac:(lia)) E3) as [Eh E4].
  destruct (app_same_length _ _ _ _ (Lp mi1 mi2 ltac:(lia) ltac:(lia)) E4) as [Emi E5].
  apply pad2_inj in Emo; [|lia|lia]. apply pad2_inj in Ed; [|lia|lia].
  apply pad2_inj in Eh; [|lia|lia]. apply pad2_inj in Emi; [|lia|lia].
  split; [exact Ey|]. split; [lia|]. split; [exact Ed|]. split; [exact Eh|]. split; [exact Emi|].
  destruct r1, r2; simpl in E5; try discriminate; reflexivity.
Qed.

(** ** Witnesses of the properties above *)

Lemma getContrastColor_rgbString_witness :
  getContrastColor (rgbString 255 128 0) = yiqChoice (Some 255%Z) (Some 128%Z) (Some 0%Z).
Proof. apply (getContrastColor_rgbString 255 128 0); lia. Defined.

Lemma getDominantColor_px_bytes_witness :
  exists r g b, getDominantColor_px true (repeat (10, 20, 30, 255)%Z 100) = rgbString r g b /\
    isByte r = true /\ isByte g = true /\ isByte b = true.
Proof. apply (getDominantColor_px_bytes (repeat (10, 20, 30, 255)%Z 100)); reflexivity. Defined.

Lemma getCenterAverageColor_px_small_witness :
  getCenterAverageColor_px true 8 600 [] = None.
Proof. apply (getCenterAverageColor_px_small 8 600 []); [discriminate|discriminate|reflexivity]. Defined.

Lemma getCenterAverageColor_px_bytes_witness :
  exists r g b, getCenterAverageColor_px true 100 120 (repeat (10, 20, 30, 255)%Z 100) =
    Some (rgbString r g b) /\ isByte r = true /\ isByte g = true /\ isByte b = true.
Proof.
  apply (getCenterAverageColor_px_bytes 100 120 (repeat (10, 20, 30, 255)%Z 100));
    [discriminate|vm_compute; reflexivity|reflexivity].
Defined.

Lemma getHighlightColor_px_grey_witness :
  getHighlightColor_px true (repeat (50, 50, 50, 255)%Z 3) = "#e53e3e".
Proof. apply (getHighlightColor_px_grey true (repeat (50, 50, 50, 255)%Z 3)). reflexivity. Defined.

Lemma getHighlightColor_px_bytes_witness :
  getHighlightColor_px true [(230, 40, 40, 255)%Z] = rgbString 230 40 40.
Proof.
  pose proof (getHighlightColor_px_bytes [(230, 40, 40, 255)%Z] eq_refl
                ltac:(vm_compute; discriminate)) as H.
  cbv zeta in H. destruct H as (r & g & b & E & Er & Eg & Eb & _).
  rewrite E, Er, Eg, Eb. vm_compute. reflexivity.
Defined.

Lemma rgbToHsl_range_witness :
  let '(h, s, l) := rgbToHsl 230 40 40 in 0 <= h < 1 /\ 0 <= s <= 1 /\ 0 <= l <= 1.
Proof.
  apply (rgbToHsl_range 230 40 40); (split; [discriminate|discriminate]).
Defined.

Lemma snap_clicks_alternate_witness :
  let s' := run sampleCollaborators initialState (repeat (EvColorChange "snap") 2) in
  color s' = "snap" /\
  getFrameColor (color s') (autoColor s') (snapPattern s') (retrobluePattern s') = SNAP_COLORS_pattern2.
Proof. apply (snap_clicks_alternate sampleCollaborators initialState 1). reflexivity. Defined.

Lemma retroblue_clicks_alternate_witness :
  let s' := run sampleCollaborators initialState (repeat (EvColorChange "retroblue") 3) in
  color s' = "retroblue" /\
  getFrameColor (color s') (autoColor s') (snapPattern s') (retrobluePattern s') =
    RETROBLUE_COLORS_pattern1.
Proof. apply (retroblue_clicks_alternate sampleCollaborators initialState 2). reflexivity. Defined.

Lemma auto_clicks_cycle_witness :
  let s := mkState (Some (mkImg 3000 4000 1)) "snap" "#e53e3e" 3 1 1 None
             (EmptyString, EmptyString) false EmptyString EmptyString false in
  let s' := run sampleCollaborators s (repeat (EvColorChange "auto") 3) in
  autoPattern s' = 3%nat /\
  getFrameColor (color s') (autoColor s') (snapPattern s') (retrobluePattern s') =
    autoColorFor sampleCollaborators (mkImg 3000 4000 1) 3.
Proof.
  apply (auto_clicks_cycle sampleCollaborators
           (mkState (Some (mkImg 3000 4000 1)) "snap" "#e53e3e" 3 1 1 None
              (EmptyString, EmptyString) false EmptyString EmptyString false)
           (mkImg 3000 4000 1) 2); reflexivity.
Defined.


Lemma panel_resize_in_view_witness :
  let q := match handlePanelResize 1440 900 600 (mkPanelPos 5 2000) with
           | Some q => q | None => mkPanelPos 5 2000 end in
  20 <= px q <= 1440 - 280 /\ 20 <= py q <= 900 - 380.
Proof. apply (panel_resize_in_view 1440 900 600 (mkPanelPos 5 2000)); discriminate. Defined.

Lemma downloadFilename_injective_witness :
  2025%Z = 2025%Z /\ 0%Z = 0%Z /\ 5%Z = 5%Z /\ 9%Z = 9%Z /\ 7%Z = 7%Z /\ r9_16 = r9_16.
Proof.
  apply (downloadFilename_injective 2025 0 5 9 7 r9_16 2025 0 5 9 7 r9_16); try lia.
  reflexivity.
Defined.
